(** * The Segment model of metabase (src/metabase/models/segment.clj)

    A shallow embedding of the Segment entity and of its persistence
    functions, over a small model of the Clojure values they handle and of
    the application database they talk to. *)

From stdpp Require Import gmap strings list fin_maps sorting.

Set Default Proof Using "Type".
Local Open Scope Z_scope.

(** ** Clojure values *)

(** The dynamically typed values the model functions receive and return.
    A keyword [:name] is [VKw "name"]; maps and records are keyed by keyword
    names; [VDelay c] is the suspended creator lookup that [post-select]
    builds, closed over the [creator_id] it captured. *)
#[warnings="-register-all"]
Inductive value : Type :=
  | VNil
  | VBool (b : bool)
  | VInt (n : Z)
  | VStr (s : string)
  | VKw (k : string)
  | VVec (l : list value)
  | VMap (m : gmap string value)
  | VDelay (creator_id : value).

Abbreviation row := (gmap string value).

(** [integer?], [string?], [map?], [keyword?], [delay?] *)
Definition is_integer (v : value) : bool :=
  match v with VInt _ => true | _ => false end.
Definition is_string (v : value) : bool :=
  match v with VStr _ => true | _ => false end.
Definition is_map (v : value) : bool :=
  match v with VMap _ => true | _ => false end.
Definition is_keyword (v : value) : bool :=
  match v with VKw _ => true | _ => false end.
Definition is_delay (v : value) : bool :=
  match v with VDelay _ => true | _ => false end.

(** Clojure truthiness: everything but [nil] and [false]. *)
Definition truthy (v : value) : bool :=
  match v with VNil | VBool false => false | _ => true end.

(** [(get m k)], which is also [(k m)] and [(m k)] on a record: [nil] when
    the key is absent or [m] is [nil]. *)
Definition get (m : value) (k : string) : value :=
  match m with
  | VMap r => default VNil (r !! k)
  | _ => VNil
  end.

(** [(assoc m k v)] on a map or on [nil] (where it builds a one-entry map).
    The model functions call it on nothing else. *)
Definition assoc (m : value) (k : string) (v : value) : value :=
  match m with
  | VMap r => VMap (<[k := v]> r)
  | _ => VMap {[k := v]}
  end.

(** ** Exceptions and the world *)

Inductive exn : Type :=
  | AssertionError              (* a [:pre] condition that does not hold *)
  | Exception (msg : string)    (* [(Exception. msg)] *)
  | ClassCastException.

Inductive result (A : Type) : Type :=
  | Ok (a : A)
  | Throw (e : exn).
Arguments Ok {A} a.
Arguments Throw {A} e.

Inductive entity : Type := Segment | User | Revision.

(** A table: its rows, each under its primary key (the [id] column), and
    the sequence that numbers the next inserted row. *)
Record tbl : Type := Tbl {
  rows : gmap Z row;
  next_id : Z
}.

(** Everything the functions of the namespace read or write: the three
    tables, the events published so far (oldest first), the clock that
    stamps rows, the run mode read by [config/is-prod?] and the user bound
    to [*current-user*]. *)
Record world : Type := World {
  segment_table : tbl;
  user_table : tbl;
  revision_table : tbl;
  events : list (string * value);
  clock : Z;
  is_prod : bool;
  current_user : value
}.

Definition table (e : entity) (w : world) : tbl :=
  match e with
  | Segment => segment_table w
  | User => user_table w
  | Revision => revision_table w
  end.

Definition set_table (e : entity) (t : tbl) (w : world) : world :=
  match e with
  | Segment =>
      World t (user_table w) (revision_table w) (events w)
            (clock w) (is_prod w) (current_user w)
  | User =>
      World (segment_table w) t (revision_table w) (events w)
            (clock w) (is_prod w) (current_user w)
  | Revision =>
      World (segment_table w) (user_table w) t (events w)
            (clock w) (is_prod w) (current_user w)
  end.

Definition set_events (l : list (string * value)) (w : world) : world :=
  World (segment_table w) (user_table w) (revision_table w) l
        (clock w) (is_prod w) (current_user w).

Definition set_clock (c : Z) (w : world) : world :=
  World (segment_table w) (user_table w) (revision_table w) (events w)
        c (is_prod w) (current_user w).

Definition with_current_user (u : value) (w : world) : world :=
  World (segment_table w) (user_table w) (revision_table w) (events w)
        (clock w) (is_prod w) u.

(** ** The monad of the model: state that survives a throw *)

Definition M (A : Type) : Type := world -> result A * world.

Definition ret {A} (a : A) : M A := fun w => (Ok a, w).
Definition throw {A} (e : exn) : M A := fun w => (Throw e, w).
Definition bind {A B} (c : M A) (k : A -> M B) : M B :=
  fun w =>
    match c w with
    | (Ok a, w1) => k a w1
    | (Throw e, w1) => (Throw e, w1)
    end.
Definition gets {A} (f : world -> A) : M A := fun w => (Ok (f w), w).
Definition modify (f : world -> world) : M unit := fun w => (Ok tt, f w).

Notation "x <- c ;; k" := (bind c (fun x => k))
  (at level 100, c at next level, right associativity).
Notation "c ;;; k" := (bind c (fun _ => k))
  (at level 100, right associativity).

(** [{:pre [c1 c2 ...]}]: the conditions are checked in order before the
    body runs, and the first that fails throws an [AssertionError]. *)
Definition pre (conds : list bool) : M unit :=
  if forallb (fun b => b) conds then ret tt else throw AssertionError.

(** Runs [f] on each element, left to right, for its effects. *)
Fixpoint for_each {A} (f : A -> M unit) (l : list A) : M unit :=
  match l with
  | [] => ret tt
  | x :: l' => f x ;;; for_each f l'
  end.

(** ** The collaborators of the namespace *)

(** The JSON library behind the [:json] column type is not among the
    sources: it is a parameter of the development. [generate_string] writes
    a value as JSON text, [parse_string] reads JSON text back. *)
Class JsonCodec : Type := {
  generate_string : value -> string;
  parse_string : string -> value
}.

(** [config/is-prod?] *)
Definition config_is_prod : M bool := gets is_prod.

(** Modelled from the spec: [metabase.events/publish-event] is not among the
    sources. The spec's Event Publisher notifies the observers of the topic
    with the payload, after the mutation and without rolling it back; the
    callers in this namespace thread its return value, the payload. The
    notification is recorded in [events]; what the observers of a topic do
    with it, the Revision Recorder among them, is code of other namespaces
    and is not run here. *)
Definition publish_event (topic : string) (obj : value) : M value :=
  modify (fun w => set_events (events w ++ [(topic, obj)]) w) ;;;
  ret obj.

(** Modelled from the spec: [metabase.util/jdbc-clob->str] is not among the
    sources. The spec's [description] is an optional string: the text of the
    column as a string, [nil] for none. A column that holds a string already
    is handed back as it is. *)
Definition jdbc_clob_to_str (clob : value) : value :=
  if truthy clob then clob else VNil.

Section Store.
Context `{JsonCodec}.

(** *** The entity: [(defentity Segment ...)] *)

Definition json_in (v : value) : value := VStr (generate_string v).
Definition json_out (v : value) : value :=
  match v with VStr s => parse_string s | _ => v end.

(** Modelled from the spec: the hook behind [(types :definition :json)] is
    not among the sources. The spec stores the definition as serialized
    structured data: the column is written as JSON text and parsed when
    read. *)
Definition types_in (e : entity) (r : row) : row :=
  match e with
  | Segment => alter json_in "definition" r
  | _ => r
  end.
Definition types_out (e : entity) (r : row) : row :=
  match e with
  | Segment => alter json_out "definition" r
  | _ => r
  end.

(** Modelled from the spec: the hook behind [timestamped] is not among the
    sources. The spec's [created_at] and [updated_at] are maintained by the
    store, for the entities that ask for it. *)
Definition timestamped (e : entity) : bool :=
  match e with Segment => true | _ => false end.

(** [post-select] of [Segment]: the record gets a [:creator] delay closed
    over its [creator_id], and its description as a string. The other
    entities are defined elsewhere: their rows are read as they are. *)
Definition post_select (e : entity) (r : row) : value :=
  match e with
  | Segment =>
      let segment := VMap r in
      let creator_id := get segment "creator_id" in
      let description := get segment "description" in
      assoc (assoc segment "creator" (VDelay creator_id))
            "description" (jdbc_clob_to_str description)
  | _ => VMap r
  end.

(** *** [metabase.db]

    The namespace [metabase.db] ([sel], [ins], [upd], [exists?],
    [cascade-delete]) is not among the sources. The store below follows the
    spec's Segment Store: it persists records with the logical columns
    [id, table_id, creator_id, name, description, definition, is_active,
    created_at, updated_at], assigns the id at creation, maintains the two
    timestamps, and fetches by id or by column values, ordered by [name]
    ascending on request. The entity's hooks ([types], [timestamped],
    [post-select], [pre-cascade-delete]) run where the store reads, writes
    or removes a row. *)

(** Equality of a column with the value of a [where] clause: scalars only. *)
Definition sql_eqb (a b : value) : bool :=
  match a, b with
  | VInt x, VInt y => bool_decide (x = y)
  | VBool x, VBool y => bool_decide (x = y)
  | VStr x, VStr y => bool_decide (x = y)
  | _, _ => false
  end.

Definition row_matches (kwargs : list (string * value)) (r : row) : bool :=
  forallb (fun kv => match r !! kv.1 with
                     | Some x => sql_eqb x kv.2
                     | None => false
                     end) kwargs.

(** A stored row as a query sees it: with its [id] column. *)
Definition with_id (kr : Z * row) : row := <["id" := VInt kr.1]> kr.2.

(** The text a row is ordered by under [(k/order column :ASC)]; texts are
    compared byte by byte, in lexicographic order. *)
Definition order_key (column : string) (r : row) : string :=
  match r !! column with Some (VStr s) => s | _ => ""%string end.

Definition order_asc (column : string) (r1 r2 : row) : Prop :=
  String.le (order_key column r1) (order_key column r2).

#[local] Instance order_asc_dec column r1 r2 :
  Decision (order_asc column r1 r2).
Proof. unfold order_asc; apply _. Defined.

Definition order_by (order : option string) (l : list row) : list row :=
  match order with
  | Some column => merge_sort (order_asc column) l
  | None => l
  end.

(** The rows of [e] that match [kwargs], in the requested order. *)
Definition select_rows (e : entity) (kwargs : list (string * value))
    (order : option string) (w : world) : list row :=
  order_by order
    (filter (fun r => row_matches kwargs r = true)
            (with_id <$> map_to_list (rows (table e w)))).

(** Modelled from the spec: [(db/sel :many e k v ... order)], absent from
    the sources. The matching rows, in the requested order, each decoded and
    passed through the entity's [post-select]. *)
Definition db_sel_many (e : entity) (kwargs : list (string * value))
    (order : option string) : M (list value) :=
  gets (fun w => (fun r => post_select e (types_out e r))
                   <$> select_rows e kwargs order w).

(** Modelled from the spec: [(db/sel :one e k v ...)], absent from the
    sources. The first match, or [nil] (the spec's NotFound). *)
Definition db_sel_one (e : entity) (kwargs : list (string * value))
    : M value :=
  l <- db_sel_many e kwargs None ;;
  ret (default VNil (head l)).

(** Modelled from the spec: [(db/exists? e k v ...)], absent from the
    sources. Whether some row matches. *)
Definition db_exists (e : entity) (kwargs : list (string * value))
    : M bool :=
  gets (fun w => match select_rows e kwargs None w with
                 | [] => false
                 | _ => true
                 end).

Definition stamp_insert (e : entity) (now : Z) (r : row) : row :=
  if timestamped e
  then <["updated_at" := VInt now]> (<["created_at" := VInt now]> r)
  else r.

Definition stamp_update (e : entity) (now : Z) (r : row) : row :=
  if timestamped e then <["updated_at" := VInt now]> r else r.

(** Modelled from the spec: [(db/ins e k v ...)], absent from the sources.
    Stores the new row under the next id of the table, stamped, and returns
    it as [sel] reads it. *)
Definition db_ins (e : entity) (kvs : row) : M value :=
  k <- gets (fun w => next_id (table e w)) ;;
  now <- gets clock ;;
  modify (fun w =>
    set_clock (now + 1)
      (set_table e (Tbl (<[k := stamp_insert e now (types_in e kvs)]>
                           (rows (table e w)))
                        (k + 1)) w)) ;;;
  db_sel_one e [("id"%string, VInt k)].

(** Modelled from the spec: [(db/upd e id k v ...)], absent from the
    sources. Writes the given columns of the row [id] in place, stamps it,
    and says whether a row was there. *)
Definition db_upd (e : entity) (id : value) (kvs : row) : M bool :=
  t <- gets (table e) ;;
  now <- gets clock ;;
  match id with
  | VInt k =>
      match rows t !! k with
      | Some r =>
          modify (fun w =>
            set_clock (now + 1)
              (set_table e (Tbl (<[k := stamp_update e now (types_in e kvs ∪ r)]>
                                   (rows t))
                                (next_id t)) w)) ;;;
          ret true
      | None => ret false
      end
  | _ => ret false
  end.

(** Modelled from the spec: the physical removal behind
    [db/cascade-delete], absent from the sources. Removes the rows of [e]
    that match [kwargs]. *)
Definition db_del (e : entity) (kwargs : list (string * value)) : M unit :=
  modify (fun w =>
    let t := table e w in
    set_table e (Tbl (filter (fun kr => row_matches kwargs (with_id kr) = false)
                             (rows t))
                     (next_id t)) w).

(** Modelled from the spec: [(db/cascade-delete e k v ...)], absent from
    the sources. Runs the entity's [pre-cascade-delete] on every match, then
    removes the matches; a hook that throws aborts the deletion. *)
Definition db_cascade_delete (hook : value -> M unit) (e : entity)
    (kwargs : list (string * value)) : M unit :=
  objs <- db_sel_many e kwargs None ;;
  for_each hook objs ;;;
  db_del e kwargs.

(** *** [metabase.models.hydrate] and [metabase.models.interface] *)

(** Forces [(delay (when creator_id (db/sel :one User :id creator_id)))]. *)
Definition force (creator_id : value) : M value :=
  if truthy creator_id
  then db_sel_one User [("id"%string, creator_id)]
  else ret VNil.

(** Modelled from the spec: [(hydrate obj k)], absent from the sources. The
    spec's [creator] is a lazily resolved reference to the creator's user
    record, resolved on read: hydrating a key that holds a delay replaces
    the delay with what it yields; anything else is left as it is. *)
Definition hydrate (obj : value) (k : string) : M value :=
  match get obj k with
  | VDelay c => v <- force c ;; ret (assoc obj k v)
  | _ => ret obj
  end.

(** [hydrate] on a sequence of records. *)
Fixpoint hydrate_all (objs : list value) (k : string) : M (list value) :=
  match objs with
  | [] => ret []
  | obj :: objs' =>
      o <- hydrate obj k ;;
      os <- hydrate_all objs' k ;;
      ret (o :: os)
  end.

(** Modelled from the spec: the macro [extend-ICanReadWrite] is not among
    the sources. The spec's Access Policy: read is unrestricted
    ([:always]), write is for callers that hold the elevated role
    ([:superuser]). *)
Inductive permission : Type := Always | Superuser.

Definition superuser (caller : value) : bool :=
  truthy (get caller "is_superuser").

Definition permitted (p : permission) (caller : value) : bool :=
  match p with
  | Always => true
  | Superuser => superuser caller
  end.

(** [(extend-ICanReadWrite SegmentInstance :read :always, :write :superuser)]:
    the caller is the user bound to [*current-user*]. *)
Definition can_read : M bool :=
  gets (fun w => permitted Always (current_user w)).
Definition can_write : M bool :=
  gets (fun w => permitted Superuser (current_user w)).

(** *** [pre-cascade-delete] of [Segment] *)

Definition pre_cascade_delete (e : entity) (obj : value) : M unit :=
  match e with
  | Segment =>
      let id := get obj "id" in
      prod <- config_is_prod ;;
      if prod
      then throw (Exception "deleting a Segment is not supported.")
      else db_cascade_delete (fun _ => ret tt) Revision
             [("model"%string, VStr "Segment"); ("model_id"%string, id)]
  | _ => ret tt
  end.

(** [(db/cascade-delete e k v ...)] with the hook of the entity. *)
Definition cascade_delete (e : entity) (kwargs : list (string * value))
    : M unit :=
  db_cascade_delete (pre_cascade_delete e) e kwargs.

(** ** Persistence functions *)

Definition is_kw (name : string) (v : value) : bool :=
  match v with VKw k => bool_decide (k = name) | _ => false end.

Definition create_segment
    (table_id name description creator_id definition : value) : M value :=
  pre [is_integer table_id; is_string name; is_integer creator_id;
       is_map definition] ;;;
  segment <- db_ins Segment
               (<["table_id" := table_id]>
               (<["creator_id" := creator_id]>
               (<["name" := name]>
               (<["description" := description]>
               (<["is_active" := VBool true]>
               (<["definition" := definition]> ∅)))))) ;;
  published <- publish_event "segment-create" segment ;;
  hydrate published "creator".

Definition exists_segment (id : value) : M bool :=
  pre [is_integer id] ;;;
  db_exists Segment [("id"%string, id); ("is_active"%string, VBool true)].

Definition retrieve_segment (id : value) : M value :=
  pre [is_integer id] ;;;
  segment <- db_sel_one Segment [("id"%string, id)] ;;
  hydrate segment "creator".

Definition retrieve_segments (table_id state : value) : M (list value) :=
  pre [is_integer table_id; is_keyword state] ;;;
  segments <-
    (if is_kw "all" state
     then db_sel_many Segment [("table_id"%string, table_id)]
            (Some "name"%string)
     else db_sel_many Segment
            [("table_id"%string, table_id);
             ("is_active"%string,
              VBool (if is_kw "active" state then true else false))]
            (Some "name"%string)) ;;
  hydrate_all segments "creator".

(** The one-argument arity. *)
Definition retrieve_segments_default (table_id : value) : M (list value) :=
  retrieve_segments table_id (VKw "active").

Definition update_segment (segment_map user_id : value) : M value :=
  let id := get segment_map "id" in
  let name := get segment_map "name" in
  let description := get segment_map "description" in
  let definition := get segment_map "definition" in
  let revision_message := get segment_map "revision_message" in
  pre [is_integer id; is_string name; is_map definition; is_integer user_id;
       is_string revision_message] ;;;
  db_upd Segment id
    (<["name" := name]>
    (<["description" := description]>
    (<["definition" := definition]> ∅))) ;;;
  segment <- retrieve_segment id ;;
  publish_event "segment-update"
    (assoc (assoc segment "actor_id" user_id)
           "revision_message" revision_message) ;;;
  ret segment.

Definition delete_segment (id user_id : value) : M value :=
  pre [is_integer id] ;;;
  db_upd Segment id (<["is_active" := VBool false]> ∅) ;;;
  segment <- retrieve_segment id ;;
  publish_event "segment-delete" (assoc segment "actor_id" user_id) ;;;
  ret segment.

(** ** Revisions *)

(** [(dissoc m k)] on a map or on [nil]. *)
Definition dissoc (m : value) (k : string) : result value :=
  match m with
  | VMap r => Ok (VMap (delete k r))
  | VNil => Ok VNil
  | _ => Throw ClassCastException
  end.

(** [(into {} m)] on a map or on [nil]. *)
Definition into_map (m : value) : result row :=
  match m with
  | VMap r => Ok r
  | VNil => Ok ∅
  | _ => Throw ClassCastException
  end.

(** [(m/filter-vals pred m)] *)
Definition filter_vals (pred : value -> bool) (r : row) : row :=
  filter (fun kv => pred kv.2 = true) r.

Definition serialize_instance (instance : value) : result value :=
  match dissoc instance "created_at" with
  | Ok m1 =>
      match dissoc m1 "updated_at" with
      | Ok m2 =>
          match into_map m2 with
          | Ok r => Ok (VMap (filter_vals (fun v => negb (is_delay v)) r))
          | Throw e => Throw e
          end
      | Throw e => Throw e
      end
  | Throw e => Throw e
  end.

End Store.

(** ** What the store holds, as a caller reads it *)

Section Views.
Context `{JsonCodec}.

(** The user record a creator delay over [id] yields when it is forced. *)
Definition user_by_id (w : world) (id : value) : value :=
  match id with
  | VInt k =>
      match rows (user_table w) !! k with
      | Some u => VMap (<["id" := VInt k]> u)
      | None => VNil
      end
  | _ => VNil
  end.

(** [obj] with the delay under [k], if any, replaced by what it yields. *)
Definition hydrated (w : world) (obj : value) (k : string) : value :=
  match get obj k with
  | VDelay c => assoc obj k (user_by_id w c)
  | _ => obj
  end.

(** The hydrated record of a stored row (with its id). *)
Definition segment_view (w : world) (r : row) : value :=
  hydrated w (post_select Segment (types_out Segment r)) "creator".

(** The hydrated record of the Segment stored under [k], [nil] if none. *)
Definition stored_segment (w : world) (k : Z) : value :=
  match rows (segment_table w) !! k with
  | Some r => segment_view w (<["id" := VInt k]> r)
  | None => VNil
  end.

(** Whether column [c] of a stored row holds the scalar [v]. *)
Definition column_is (r : row) (c : string) (v : value) : bool :=
  match r !! c with
  | Some x => sql_eqb x v
  | None => false
  end.

(** The ids of the Segments of table [n], restricted to those whose
    [is_active] column is [b] when [flag] is [Some b]. *)
Definition wanted (n : Z) (flag : option bool) (r : row) : bool :=
  column_is r "table_id" (VInt n) &&
  match flag with
  | Some b => column_is r "is_active" (VBool b)
  | None => true
  end.

Definition segment_ids (w : world) (n : Z) (flag : option bool) : list Z :=
  (filter (fun kr : Z * row => wanted n flag kr.2 = true)
          (map_to_list (rows (segment_table w)))).*1.

(** The world once the Segment row [k] has been written as [r]. *)
Definition written (w : world) (k : Z) (r : row) : world :=
  set_clock (clock w + 1)
    (set_table Segment
       (Tbl (<[k := r]> (rows (segment_table w))) (next_id (segment_table w)))
       w).

(** The row that [db/upd] leaves where [r] was. *)
Definition updated_row (w : world) (kvs r : row) : row :=
  <["updated_at" := VInt (clock w)]> (types_in Segment kvs ∪ r).

(** The columns [update-segment] hands to [db/upd]. *)
Definition update_columns (segment_map : value) : row :=
  <["name" := get segment_map "name"]>
  (<["description" := get segment_map "description"]>
  (<["definition" := get segment_map "definition"]> ∅)).

(** The world after the [db/upd] of [update-segment] or [delete-segment]:
    the row [k] rewritten with [kvs] if it is there, nothing otherwise. *)
Definition after_upd (w : world) (k : Z) (kvs : row) : world :=
  match rows (segment_table w) !! k with
  | Some r => written w k (updated_row w kvs r)
  | None => w
  end.

(** The row [create-segment] inserts and the world once it is stored. *)
Definition created_row
    (w : world) (table_id name description creator_id definition : value)
    : row :=
  stamp_insert Segment (clock w)
    (types_in Segment
       (<["table_id" := table_id]>
       (<["creator_id" := creator_id]>
       (<["name" := name]>
       (<["description" := description]>
       (<["is_active" := VBool true]>
       (<["definition" := definition]> ∅))))))).

Definition after_ins (w : world) (r : row) : world :=
  set_clock (clock w + 1)
    (set_table Segment
       (Tbl (<[next_id (segment_table w) := r]> (rows (segment_table w)))
            (next_id (segment_table w) + 1))
       w).

(** Whether a Revision row records the Segment [k]. *)
Definition is_revision_of (k : Z) (rev : row) : bool :=
  column_is rev "model" (VStr "Segment") && column_is rev "model_id" (VInt k).

(** The world without the revision records of the Segment [k]. *)
Definition without_revisions (w : world) (k : Z) : world :=
  set_table Revision
    (Tbl (filter (fun jr : Z * row => is_revision_of k jr.2 = false)
                 (rows (revision_table w)))
         (next_id (revision_table w)))
    w.

(** The world without the Segment row [k]. *)
Definition without_segment (w : world) (k : Z) : world :=
  set_table Segment
    (Tbl (delete k (rows (segment_table w))) (next_id (segment_table w)))
    w.

(** The [where] clause [retrieve-segments] builds for a keyword state. *)
Definition where_clause (n : Z) (state : string) : list (string * value) :=
  if bool_decide (state = "all"%string)
  then [("table_id"%string, VInt n)]
  else [("table_id"%string, VInt n);
        ("is_active"%string, VBool (bool_decide (state = "active"%string)))].

Definition name_of (v : value) : string :=
  match get v "name" with VStr s => s | _ => ""%string end.

Definition by_name (a b : value) : Prop := String.le (name_of a) (name_of b).

(** [retrieve-segments] on table [n] with the keyword [state] returns, in
    ascending order of name, the hydrated records of exactly the Segments
    [segment_ids w n flag], and leaves the world alone. *)
Definition returns_listing (w : world) (n : Z) (state : string)
    (flag : option bool) : Prop :=
  exists l : list value,
    retrieve_segments (VInt n) (VKw state) w = (Ok l, w) /\
    l ≡ₚ stored_segment w <$> segment_ids w n flag /\
    StronglySorted by_name l /\
    Forall (fun seg => get seg "creator" = user_by_id w (get seg "creator_id"))
           l.

End Views.

(** ** Sample data *)

(** A codec that knows a single document, the empty object. *)
Definition empty_object_codec : JsonCodec :=
  {| generate_string := fun _ => "{}"%string;
     parse_string := fun _ => VMap ∅ |}.

(** A JSON writer and reader for the documents of the sample data: objects
    whose members are texts (without quotes or escapes), [null], [true] or
    [false]. JSON has no keywords: a keyword is written as the text of its
    name, and so reads back as a string. Any other value is written as
    [null], and text that is no such object reads as [nil]. *)
(** The double quote, as a text of one character. *)
Definition json_quote : string := String (Ascii.ascii_of_nat 34) "".

Definition json_text (s : string) : string :=
  json_quote +:+ s +:+ json_quote.

Definition json_scalar (v : value) : string :=
  match v with
  | VStr s | VKw s => json_text s
  | VBool true => "true"
  | VBool false => "false"
  | _ => "null"
  end.

Definition json_member (kv : string * value) : string :=
  json_text kv.1 +:+ ":" +:+ json_scalar kv.2.

Definition json_object (m : gmap string value) : string :=
  "{" +:+ String.concat "," (json_member <$> map_to_list m) +:+ "}".

(** Where the reader is in the text. *)
Inductive json_reader : Type :=
  | BeforeObject
  | BeforeKey
  | InKey (key : string)
  | BeforeColon (key : string)
  | BeforeValue (key : string)
  | InText (key text : string)
  | InWord (key word : string)
  | AfterValue
  | AfterObject
  | Unreadable.

Definition json_word (word : string) : option value :=
  if decide (word = "null"%string) then Some VNil
  else if decide (word = "true"%string) then Some (VBool true)
  else if decide (word = "false"%string) then Some (VBool false)
  else None.

(** One character: where the reader is afterwards, and the members read. *)
Definition json_read (st : json_reader * list (string * value))
    (c : Ascii.ascii)
    : json_reader * list (string * value) :=
  let sees (d : string) := bool_decide (String c "" = d) in
  let '(at_, members) := st in
  match at_ with
  | BeforeObject =>
      if sees "{" then (BeforeKey, members) else (Unreadable, members)
  | BeforeKey =>
      if sees json_quote then (InKey "", members)
      else if sees "}" then (AfterObject, members)
      else (Unreadable, members)
  | InKey key =>
      if sees json_quote then (BeforeColon key, members)
      else (InKey (key +:+ String c ""), members)
  | BeforeColon key =>
      if sees ":" then (BeforeValue key, members) else (Unreadable, members)
  | BeforeValue key =>
      if sees json_quote then (InText key "", members)
      else (InWord key (String c ""), members)
  | InText key text =>
      if sees json_quote then (AfterValue, members ++ [(key, VStr text)])
      else (InText key (text +:+ String c ""), members)
  | InWord key word =>
      if sees "," || sees "}"
      then match json_word word with
           | Some v =>
               (if sees "," then BeforeKey else AfterObject,
                members ++ [(key, v)])
           | None => (Unreadable, members)
           end
      else (InWord key (word +:+ String c ""), members)
  | AfterValue =>
      if sees "," then (BeforeKey, members)
      else if sees "}" then (AfterObject, members)
      else (Unreadable, members)
  | AfterObject | Unreadable => (Unreadable, members)
  end.

Definition json_parse (s : string) : value :=
  match fold_left json_read (String.list_ascii_of_string s) (BeforeObject, []) with
  | (AfterObject, members) => VMap (list_to_map members)
  | _ => VNil
  end.

Definition json_object_codec : JsonCodec :=
  {| generate_string := fun v =>
       match v with VMap m => json_object m | _ => json_scalar v end;
     parse_string := json_parse |}.

(** The definition of the spec's scenario,
    [{field: "status", op: "=", value: "active"}]. *)
Definition sample_definition : value :=
  VMap (<["field" := VStr "status"]>
       (<["op" := VStr "="]>
       (<["value" := VStr "active"]> ∅))).

Definition sample_admin : row :=
  <["first_name" := VStr "Crowberto"]> (<["is_superuser" := VBool true]> ∅).

Definition sample_user : row :=
  <["first_name" := VStr "Rasta"]> (<["is_superuser" := VBool false]> ∅).

Definition sample_segment (name : string) (active : bool) : row :=
  <["table_id" := VInt 1]>
  (<["creator_id" := VInt 7]>
  (<["name" := VStr name]>
  (<["description" := VNil]>
  (<["is_active" := VBool active]>
  (<["definition" := VStr "{}"]>
  (<["created_at" := VInt 10]>
  (<["updated_at" := VInt 10]> ∅))))))).

Definition sample_revision (model : string) (model_id : Z) : row :=
  <["model" := VStr model]> (<["model_id" := VInt model_id]> ∅).

(** Two Segments of table 1, the second one soft-deleted, with one revision
    of the first and one of a Card; the caller is user 7, who is no
    superuser. *)
Definition sample_world (prod : bool) : world :=
  {| segment_table :=
       Tbl (<[1 := sample_segment "Active Users" true]>
           (<[2 := sample_segment "Churned Users" false]> ∅)) 3;
     user_table := Tbl (<[1 := sample_admin]> (<[7 := sample_user]> ∅)) 8;
     revision_table :=
       Tbl (<[1 := sample_revision "Segment" 1]>
           (<[2 := sample_revision "Card" 1]> ∅)) 3;
     events := [];
     clock := 100;
     is_prod := prod;
     current_user := VMap (<["id" := VInt 7]> sample_user) |}.

(** The argument of an [update-segment] call on the Segment [id]. *)
Definition sample_update (id : Z) (revision_message : value) : value :=
  VMap (<["id" := VInt id]>
       (<["name" := VStr "Active Users v2"]>
       (<["description" := VNil]>
       (<["definition" := VMap ∅]>
       (<["revision_message" := revision_message]> ∅))))).

(** * The chart type sidebar
    (ChartTypeSidebar.jsx, under
    frontend/src/metabase/query_builder/components/view/sidebars) *)

Module ChartTypeSidebar.
Local Open Scope nat_scope.

Definition FIXED_LAYOUT : list (list string) :=
  [["line"; "bar"; "combo"; "area"; "row"];
   ["scatter"; "pie"; "funnel"; "smartscalar"; "progress"; "gauge"];
   ["scalar"; "table"; "map"]]%string.

(** [new Set(_.flatten(FIXED_LAYOUT))] *)
Definition FIXED_TYPES : gset string := list_to_set (concat FIXED_LAYOUT).

(** [result[key].push(value)], on a fresh array when the key is new. *)
Definition push {A} (key : nat) (value : A) (result : gmap nat (list A))
    : gmap nat (list A) :=
  <[key := default [] (result !! key) ++ [value]]> result.

(** [_.groupBy(values, iteratee)]: the iteratee gets the value and its index;
    the values are collected, in order, under the key it returns. *)
Fixpoint groupBy_from {A} (iteratee : A -> nat -> nat) (index : nat)
    (values : list A) (result : gmap nat (list A)) : gmap nat (list A) :=
  match values with
  | [] => result
  | value :: rest =>
      groupBy_from iteratee (S index) rest
        (push (iteratee value index) value result)
  end.

Definition groupBy {A} (values : list A) (iteratee : A -> nat -> nat)
    : gmap nat (list A) :=
  groupBy_from iteratee 0 values ∅.

(** [Object.values(o)] of an object whose keys are integers: the values in
    ascending order of key. *)
Definition Object_values {A} (o : gmap nat (list A)) : list (list A) :=
  omap (fun key => o !! key) (merge_sort (≤) (elements (dom o))).

Section Render.
(** The rows of a query result, which the sidebar only hands on. *)
Context {data : Type}.

(** What the sidebar reads of a registered visualization. *)
Record visualization : Type := Visualization {
  hidden : bool;
  isSensible : option (data -> bool);
  iconName : string;
  uiName : string
}.

(** The registry [visualizations] is a [Map] from type to visualization: its
    entries in insertion order. *)
Definition Map_get (visualizations : list (string * visualization))
    (type : string) : option visualization :=
  snd <$> head (filter (fun entry => entry.1 = type) visualizations).

Definition other (visualizations : list (string * visualization))
    : list string :=
  (filter (fun entry : string * visualization =>
             hidden entry.2 = false /\ entry.1 ∉ FIXED_TYPES)
          visualizations).*1.

Definition otherGrouped (visualizations : list (string * visualization))
    : list (list string) :=
  Object_values (groupBy (other visualizations) (fun _ index => index / 4)).

Definition layout (visualizations : list (string * visualization))
    : list (list string) :=
  FIXED_LAYOUT ++ otherGrouped visualizations.

(** What a click on an option does. *)
Inductive action : Type :=
  | SetDisplay (type : string)
      (* [question.setDisplay(type).update(null, { reload: false })] *)
  | OpenChartSettings (section : string).
      (* [onOpenChartSettings({ section })] *)

(** The props of a rendered [ChartTypeOption]. *)
Record option_props : Type := OptionProps {
  props_visualization : visualization;
  props_isSelected : bool;
  props_isSensible : bool;
  props_onClick : list action
}.

(** [result && result.data && visualization.isSensible &&
    visualization.isSensible(result.data)], as the truth value the option
    tests; [result] may be null and [result.data] missing. *)
Definition sensible (result : option (option data)) (v : visualization)
    : bool :=
  match result with
  | Some (Some d) =>
      match isSensible v with
      | Some f => f d
      | None => false
      end
  | _ => false
  end.

(** What the sidebar renders for a type of a row: a [ChartTypeOption] when
    the type is registered, nothing otherwise. *)
Definition render_type (visualizations : list (string * visualization))
    (display : string) (result : option (option data)) (type : string)
    : option option_props :=
  match Map_get visualizations type with
  | Some v =>
      Some (OptionProps v (bool_decide (type = display)) (sensible result v)
              [SetDisplay type; OpenChartSettings "Data"])
  | None => None
  end.

(** The body of the sidebar: one [Flex] per row of the layout. *)
Definition render (visualizations : list (string * visualization))
    (display : string) (result : option (option data))
    : list (list (option option_props)) :=
  (fun row : list string =>
     render_type visualizations display result <$> row)
  <$> layout visualizations.

(** The type an option sets when clicked. *)
Definition option_type (o : option_props) : option string :=
  match props_onClick o with
  | SetDisplay type :: _ => Some type
  | _ => None
  end.

(** The options on screen, row by row, and the types they stand for. *)
Definition options (visualizations : list (string * visualization))
    (display : string) (result : option (option data))
    : list option_props :=
  omap (fun o => o) (concat (render visualizations display result)).

Definition shown (visualizations : list (string * visualization))
    (display : string) (result : option (option data)) : list string :=
  omap option_type (options visualizations display result).

End Render.

(** The values the iteratee sends to [key], for a list whose first index is
    [index]. *)
Fixpoint picked {A} (iteratee : A -> nat -> nat) (key index : nat)
    (values : list A) : list A :=
  match values with
  | [] => []
  | value :: rest =>
      (if decide (iteratee value index = key) then [value] else [])
      ++ picked iteratee key (S index) rest
  end.

(** A small registry: two types of the fixed layout, one of them hidden,
    and six others, one of them hidden. *)
Definition sample_visualization (hide : bool) (name : string)
    : @visualization unit :=
  Visualization hide (Some (fun _ => true)) name name.

Definition sample_registry : list (string * @visualization unit) :=
  [("table", sample_visualization false "Table");
   ("map", sample_visualization true "Map");
   ("object", sample_visualization true "Object");
   ("waterfall", sample_visualization false "Waterfall");
   ("sankey", sample_visualization false "Sankey");
   ("pivot", sample_visualization false "Pivot");
   ("boxplot", sample_visualization false "Box plot");
   ("radar", sample_visualization false "Radar")]%string.

End ChartTypeSidebar.

(** * The filter popover and the filter sidebar
    (frontend/.../view/ViewFilterPopover.jsx, and the two components whose
    file names are not known: FilterPopoverHeader and FilterSidebar) *)

Module FilterPopover.

(** What the components use of the query library ([metabase-lib]) and of
    the formatting helpers, none of which is among the sources: they are
    parameters. A [FieldFilter] is a plain MBQL clause, a [Filter] an
    instance of the library's class. *)
Class FilterLib : Type := {
  Filter : Type;
  FieldFilter : Type;
  ConcreteField : Type;
  StructuredQuery : Type;
  Dimension : Type;
  Field : Type;
  (* [query !== nextQuery] *)
  query_eq_dec :: EqDecision StructuredQuery;
  (* [new Filter(clause, null, query)] and the clause [[]] *)
  Filter_new : FieldFilter -> StructuredQuery -> Filter;
  empty_clause : FieldFilter;
  isValid : Filter -> bool;
  setQuery : Filter -> StructuredQuery -> Filter;
  (* [setDimension(fieldRef, { useDefaultOperator })], [setDimension(null)] *)
  setDimension : Filter -> option ConcreteField -> bool -> Filter;
  (* [filter.set(newFilter)], of a clause or of a [Filter] *)
  set : Filter -> FieldFilter + Filter -> Filter;
  dimension : Filter -> option Dimension;
  field : Dimension -> Field;
  isTime : Field -> bool;
  isDate : Field -> bool;
  (* [field.table && field.table.displayName()], [None] when falsy *)
  tableDisplayName : Field -> option string;
  operator : Filter -> string;
  operatorName : Filter -> string;
  operatorOptions : Filter -> list string;
  setOperator : Filter -> string -> Filter;
  formatField : Field -> string;
  singularize : string -> string
}.

(** A handler either returns or dies on a null dereference. *)
Inductive outcome (A : Type) : Type :=
  | Done (a : A)
  | TypeError.
Arguments Done {A} a.
Arguments TypeError {A}.

Section Components.
Context `{FilterLib}.

(** ** FilterPopoverHeader *)

(** What the header shows: the field picker row (the singularized table
    name, if there is one, and the formatted field) and the operator
    selector (the current operator and the options). *)
Record header_view : Type := HeaderView {
  field_picker : option (option string * string);
  operator_selector : option (string * list string)
}.

(** The function component: [null] when there is nothing to show. It calls
    [filter.dimension().field()], which dies when the dimension is null. *)
Definition FilterPopoverHeader (showFieldPicker : bool) (filter : Filter)
    : outcome (option header_view) :=
  match dimension filter with
  | None => TypeError
  | Some dimension =>
      let field := field dimension in
      let tableDisplayName := tableDisplayName field in
      let showOperatorSelector := negb (isTime field || isDate field) in
      let showHeader := showFieldPicker || showOperatorSelector in
      Done
        (if showHeader
         then Some
           {| field_picker :=
                if showFieldPicker
                then Some (singularize <$> tableDisplayName, formatField field)
                else None;
              operator_selector :=
                if showOperatorSelector
                then Some (operatorName filter, operatorOptions filter)
                else None |}
         else None)
  end.

(** [setOperator] of the header: the filters handed to [onFilterChange]. *)
Definition header_setOperator (filter : Filter) (operatorName : string)
    : list Filter :=
  if decide (operator filter <> operatorName)
  then [setOperator filter operatorName]
  else [].

(** ** ViewFilterPopover *)

(** The calls the popover makes on its parent. *)
Inductive call : Type :=
  | OnChangeFilter (filter : Filter)
  | OnClose.

(** The component: the props it reads ([query], and whether an [onClose]
    was given) and its state ([filter]). *)
Record popover : Type := Popover {
  query : StructuredQuery;
  has_onClose : bool;
  filter : option Filter
}.

(** [constructor(props)]: the [filter] prop is kept only if it is an
    instance of [Filter]. *)
Definition constructor (props_query : StructuredQuery) (onClose : bool)
    (props_filter : option (FieldFilter + Filter)) : popover :=
  Popover props_query onClose
    match props_filter with
    | Some (inr f) => Some f
    | _ => None
    end.

(** [componentWillReceiveProps(nextProps)], after which the props are the
    next ones. *)
Definition componentWillReceiveProps (c : popover)
    (nextQuery : StructuredQuery) : popover :=
  Popover nextQuery (has_onClose c)
    match filter c with
    | Some f =>
        if decide (query c <> nextQuery)
        then Some (setQuery f nextQuery)
        else Some f
    | None => None
    end.

Definition handleCommitFilter (c : popover)
    (filter : option (FieldFilter + Filter)) (query : StructuredQuery)
    : list call :=
  let filter :=
    match filter with
    | Some (inl clause) => Some (Filter_new clause query)
    | Some (inr f) => Some f
    | None => None
    end in
  match filter with
  | Some f =>
      if isValid f
      then OnChangeFilter f :: (if has_onClose c then [OnClose] else [])
      else []
  | None => []
  end.

Definition handleCommit (c : popover) : list call :=
  handleCommitFilter c (inr <$> filter c) (query c).

Definition handleCommitOnEnter (c : popover) (key : string) : list call :=
  if decide (key = "Enter"%string)
  then handleCommitFilter c (inr <$> filter c) (query c)
  else [].

Definition handleFieldChange (c : popover) (fieldRef : ConcreteField)
    (query' : StructuredQuery) : popover :=
  let f := default (Filter_new empty_clause query') (filter c) in
  Popover (query c) (has_onClose c)
    (Some (setDimension f (Some fieldRef) true)).

Definition handleFilterChange (c : popover) (newFilter : FieldFilter + Filter)
    : outcome popover :=
  match filter c with
  | Some f => Done (Popover (query c) (has_onClose c) (Some (set f newFilter)))
  | None => TypeError
  end.

Definition handleClearField (c : popover) : outcome popover :=
  match filter c with
  | Some f =>
      Done (Popover (query c) (has_onClose c)
              (Some (setDimension f None false)))
  | None => TypeError
  end.

(** What [render] returns: the dimension list while no dimension is chosen,
    the header (with the picker and the footer) once one is. *)
Inductive view : Type :=
  | DimensionListView
  | FilterView (header : option header_view).

Definition render (c : popover) : outcome view :=
  match filter c with
  | None => Done DimensionListView
  | Some f =>
      match dimension f with
      | None => Done DimensionListView
      | Some _ =>
          match FilterPopoverHeader true f with
          | Done header => Done (FilterView header)
          | TypeError => TypeError
          end
      end
  end.

(** What the popover tells its parent for one committed filter:
    [onChangeFilter], then [onClose] if one was given. *)
Definition report (onClose : bool) (f : Filter) : list call :=
  OnChangeFilter f :: (if onClose then [OnClose] else []).

(** What can happen to a mounted popover: new props (a new [query]), a key
    press on the window, and the callbacks that [render] hands to its
    children. *)
Inductive event : Type :=
  | ReceiveProps (nextQuery : StructuredQuery)
  | KeyDown (key : string)
  | ChangeDimension (fieldRef : ConcreteField) (query : StructuredQuery)
      (* [onChangeDimension] of the dimension list *)
  | PickItem (item_filter : option (FieldFilter + Filter))
      (item_query : StructuredQuery)
      (* [onChange] of the dimension list *)
  | FilterChange (newFilter : FieldFilter + Filter)
      (* [onFilterChange] of the header, the picker and the footer *)
  | ClearField          (* [onClearField] of the header *)
  | Commit.             (* [onCommit] of the footer *)

(** The events whose callback the current [render] has handed out. *)
Definition wired (c : popover) (e : event) : bool :=
  match e, render c with
  | (ReceiveProps _ | KeyDown _), _ => true
  | (ChangeDimension _ _ | PickItem _ _), Done DimensionListView => true
  | (FilterChange _ | ClearField | Commit), Done (FilterView _) => true
  | _, _ => false
  end.

(** One event: the component afterwards and the calls made on the parent. *)
Definition step (c : popover) (e : event) : outcome (popover * list call) :=
  match e with
  | ReceiveProps nextQuery => Done (componentWillReceiveProps c nextQuery, [])
  | KeyDown key => Done (c, handleCommitOnEnter c key)
  | ChangeDimension fieldRef query' =>
      Done (handleFieldChange c fieldRef query', [])
  | PickItem item_filter item_query =>
      Done (c, handleCommitFilter c item_filter item_query)
  | FilterChange newFilter =>
      match handleFilterChange c newFilter with
      | Done c' => Done (c', [])
      | TypeError => TypeError
      end
  | ClearField =>
      match handleClearField c with
      | Done c' => Done (c', [])
      | TypeError => TypeError
      end
  | Commit => Done (c, handleCommit c)
  end.

(** A run of events; a handler that dies leaves the component as it was. *)
Fixpoint run (c : popover) (es : list event) : popover * list call :=
  match es with
  | [] => (c, [])
  | e :: es' =>
      match step c e with
      | Done (c', calls) =>
          let '(c'', calls') := run c' es' in (c'', calls ++ calls')
      | TypeError => run c es'
      end
  end.

(** The filter an event asks the popover to commit, if any: the filter it
    holds, on the Enter key and on the commit button of the footer; the
    item picked in the dimension list, a bare clause being made a [Filter]
    of the item's query. No other event commits. *)
Definition to_commit (c : popover) (e : event) : option Filter :=
  match e with
  | KeyDown key => if decide (key = "Enter"%string) then filter c else None
  | Commit => filter c
  | PickItem (Some (inl clause)) item_query =>
      Some (Filter_new clause item_query)
  | PickItem (Some (inr f)) _ => Some f
  | _ => None
  end.

(** The component as each event of a run finds it. *)
Fixpoint found (c : popover) (es : list event) : list (popover * event) :=
  match es with
  | [] => []
  | e :: es' =>
      (c, e) ::
      found match step c e with Done (c', _) => c' | TypeError => c end es'
  end.

(** The valid filters that the events of a run ask to commit, in order. *)
Definition commits (c : popover) (es : list event) : list Filter :=
  List.filter isValid (omap (fun ce => to_commit ce.1 ce.2) (found c es)).

(** ** FilterSidebar *)

(** What the sidebar does to the outside. *)
Inductive sidebar_call : Type :=
  | AddAndRun (filter : Filter)  (* [filter.add().update(null, { run: true })] *)
  | Close.                       (* [this.props.onClose()] *)

Definition sidebar_handleCommit (filter : option Filter) : list sidebar_call :=
  match filter with
  | Some f => if isValid f then [AddAndRun f] else []
  | None => []
  end ++ [Close].

(** What [render] of the sidebar gives its content: what the button does
    and says. *)
Record sidebar_view : Type := SidebarView {
  onDone : list sidebar_call;
  doneButtonText : string
}.

Definition sidebar_render (filter : option Filter) : sidebar_view :=
  let valid := match filter with Some f => isValid f | None => false end in
  {| onDone := if valid then sidebar_handleCommit filter else [Close];
     doneButtonText := if valid then "Done"%string else "Cancel"%string |}.

(** The popover as the sidebar mounts it: no [filter], no [onClose]. *)
Definition sidebar_popover (q : StructuredQuery) : popover :=
  constructor q false None.

(** The [onChangeFilter] the sidebar gives the popover is its
    [handleCommit]; an [onClose] it does not give. *)
Definition sidebar_receives (calls : list call) : list sidebar_call :=
  calls ≫= fun c =>
    match c with
    | OnChangeFilter f => sidebar_handleCommit (Some f)
    | OnClose => []
    end.

(** A committed filter, as the sidebar lets it out. *)
Definition committed (f : Filter) : list sidebar_call := [AddAndRun f; Close].

End Components.
End FilterPopover.

(** ** Basic facts about the monad and the store *)

Ltac row_lookup :=
  repeat first
    [ rewrite lookup_insert_eq
    | rewrite lookup_insert_ne by done
    | rewrite lookup_alter_eq
    | rewrite lookup_alter_ne by done
    | rewrite lookup_delete_eq
    | rewrite lookup_delete_ne by done
    | rewrite lookup_union
    | rewrite lookup_empty ];
  cbn [fmap option_fmap option_map default union_with option_union_with].

Section StoreFacts.
Context `{JsonCodec}.

Lemma bind_ok {A B} (c : M A) (k : A -> M B) w a w1 :
  c w = (Ok a, w1) -> bind c k w = k a w1.
Proof. intros E. unfold bind. by rewrite E. Qed.

Lemma bind_throw {A B} (c : M A) (k : A -> M B) w e w1 :
  c w = (Throw e, w1) -> bind c k w = (Throw e, w1).
Proof. intros E. unfold bind. by rewrite E. Qed.

Lemma pre_holds conds w :
  forallb (fun b => b) conds = true -> pre conds w = (Ok tt, w).
Proof. intros E. unfold pre. by rewrite E. Qed.

Lemma pre_fails conds w :
  forallb (fun b => b) conds = false -> pre conds w = (Throw AssertionError, w).
Proof. intros E. unfold pre. by rewrite E. Qed.

Lemma for_each_skip {A} (l : list A) w :
  for_each (fun _ => ret tt) l w = (Ok tt, w).
Proof. induction l as [|x l IH]; [done|]. cbn. unfold bind. cbn. apply IH. Qed.

(** A list of rows with distinct keys has at most one row under [k]. *)
Lemma filter_key_NoDup (l : list (Z * row)) (k : Z) :
  NoDup l.*1 ->
  filter (fun kr : Z * row => kr.1 = k) l = [] \/
  exists r, filter (fun kr : Z * row => kr.1 = k) l = [(k, r)].
Proof.
  induction l as [|[k' r'] l IH]; intros ND; [by left|].
  apply NoDup_cons in ND as [Hnotin ND].
  destruct (decide (k' = k)) as [->|Hne].
  - right. exists r'. rewrite filter_cons_True by done. f_equal.
    destruct (filter (fun kr : Z * row => kr.1 = k) l) as [|[k2 r2] t] eqn:E;
      [done|].
    assert (Hin : (k2, r2) ∈ filter (fun kr : Z * row => kr.1 = k) l)
      by (rewrite E; left).
    apply list_elem_of_filter in Hin as [Hk Hin]. simpl in Hk. subst k2.
    exfalso. apply Hnotin. apply list_elem_of_fmap. by exists (k, r2).
  - rewrite filter_cons_False by done. by apply IH.
Qed.

Lemma filter_key_map_to_list (m : gmap Z row) (k : Z) :
  filter (fun kr : Z * row => kr.1 = k) (map_to_list m) =
  match m !! k with Some r => [(k, r)] | None => [] end.
Proof.
  destruct (filter_key_NoDup (map_to_list m) k (NoDup_fst_map_to_list m))
    as [E|[r E]]; rewrite E.
  - destruct (m !! k) as [r|] eqn:Hk; [|done].
    apply elem_of_map_to_list in Hk.
    assert (Hin : (k, r) ∈ filter (fun kr : Z * row => kr.1 = k) (map_to_list m))
      by (apply list_elem_of_filter; done).
    rewrite E in Hin. by apply elem_of_nil in Hin.
  - assert (Hin : (k, r) ∈ filter (fun kr : Z * row => kr.1 = k) (map_to_list m))
      by (rewrite E; left).
    apply list_elem_of_filter in Hin as [_ Hin].
    apply elem_of_map_to_list in Hin. by rewrite Hin.
Qed.

Lemma row_matches_id (c : value) (kr : Z * row) :
  row_matches [("id"%string, c)] (with_id kr) = true <-> c = VInt kr.1.
Proof.
  unfold row_matches, with_id. cbn. rewrite lookup_insert_eq.
  rewrite andb_true_r. destruct c; cbn; try (split; [done|congruence]).
  rewrite bool_decide_eq_true. split; [by intros ->|congruence].
Qed.

Lemma filter_fmap_with_id (P : row -> Prop) `{!forall r, Decision (P r)}
    (l : list (Z * row)) :
  filter P (with_id <$> l) = with_id <$> filter (fun kr => P (with_id kr)) l.
Proof.
  induction l as [|kr l IH]; [done|]. cbn [fmap list_fmap].
  destruct (decide (P (with_id kr))).
  - rewrite !filter_cons_True by done. cbn. by rewrite IH.
  - rewrite !filter_cons_False by done. done.
Qed.

(** Selecting by id finds the row stored under that key, if any. *)
Lemma select_rows_id e (c : value) w :
  select_rows e [("id"%string, c)] None w =
  match c with
  | VInt k =>
      match rows (table e w) !! k with
      | Some r => [<["id" := VInt k]> r]
      | None => []
      end
  | _ => []
  end.
Proof.
  unfold select_rows, order_by. rewrite filter_fmap_with_id.
  assert (Hno : forall l : list (Z * row),
             (forall k, c <> VInt k) ->
             filter (fun kr => row_matches [("id"%string, c)] (with_id kr) = true) l
             = []).
  { intros l Hc. induction l as [|x l IH]; [done|].
    rewrite filter_cons_False; [done|].
    rewrite row_matches_id. apply Hc. }
  destruct c as [| | k | | | | |];
    try (rewrite Hno by (intros ?; discriminate); done).
  rewrite (list_filter_iff _ (fun kr : Z * row => kr.1 = k)).
  - rewrite filter_key_map_to_list. by destruct (rows (table e w) !! k).
  - intros kr. rewrite row_matches_id. split; congruence.
Qed.

Lemma db_sel_many_run e kwargs order w :
  db_sel_many e kwargs order w =
  (Ok ((fun r => post_select e (types_out e r)) <$> select_rows e kwargs order w),
   w).
Proof. done. Qed.

Lemma db_sel_one_id e (c : value) w :
  db_sel_one e [("id"%string, c)] w =
  (Ok match c with
      | VInt k =>
          match rows (table e w) !! k with
          | Some r => post_select e (types_out e (<["id" := VInt k]> r))
          | None => VNil
          end
      | _ => VNil
      end, w).
Proof.
  unfold db_sel_one. rewrite (bind_ok _ _ _ _ _ (db_sel_many_run _ _ _ _)).
  rewrite select_rows_id. unfold ret. f_equal.
  destruct c; try done. by destruct (rows (table e w) !! n).
Qed.

Lemma force_run (c : value) w : force c w = (Ok (user_by_id w c), w).
Proof.
  unfold force, user_by_id. destruct (truthy c) eqn:Ht.
  - rewrite db_sel_one_id. by destruct c.
  - by destruct c as [|[|]| | | | | |].
Qed.

Lemma hydrate_run (obj : value) (k : string) w :
  hydrate obj k w = (Ok (hydrated w obj k), w).
Proof.
  unfold hydrate, hydrated. destruct (get obj k); try done.
  by rewrite (bind_ok _ _ _ _ _ (force_run _ _)).
Qed.

Lemma hydrate_all_run (objs : list value) (k : string) w :
  hydrate_all objs k w = (Ok ((fun obj => hydrated w obj k) <$> objs), w).
Proof.
  induction objs as [|obj objs IH]; [done|]. cbn [hydrate_all].
  rewrite (bind_ok _ _ _ _ _ (hydrate_run _ _ _)).
  by rewrite (bind_ok _ _ _ _ _ IH).
Qed.

Lemma retrieve_segment_run (k : Z) w :
  retrieve_segment (VInt k) w = (Ok (stored_segment w k), w).
Proof.
  unfold retrieve_segment.
  rewrite (bind_ok _ _ _ _ _ (pre_holds [is_integer (VInt k)] w eq_refl)).
  rewrite (bind_ok _ _ _ _ _ (db_sel_one_id _ _ _)).
  rewrite hydrate_run. unfold stored_segment, segment_view. cbn [table].
  by destruct (rows (segment_table w) !! k).
Qed.

Lemma publish_event_run (topic : string) (obj : value) w :
  publish_event topic obj w =
  (Ok obj, set_events (events w ++ [(topic, obj)]) w).
Proof. done. Qed.

Lemma db_upd_found (k : Z) (kvs r : row) w :
  rows (segment_table w) !! k = Some r ->
  db_upd Segment (VInt k) kvs w = (Ok true, written w k (updated_row w kvs r)).
Proof.
  intros Hk. unfold db_upd, bind, gets. cbn [table]. rewrite Hk. done.
Qed.

Lemma db_upd_missing (k : Z) (kvs : row) w :
  rows (segment_table w) !! k = None ->
  db_upd Segment (VInt k) kvs w = (Ok false, w).
Proof.
  intros Hk. unfold db_upd, bind, gets. cbn [table]. rewrite Hk. done.
Qed.

Lemma db_upd_run (k : Z) (kvs : row) w :
  exists b, db_upd Segment (VInt k) kvs w = (Ok b, after_upd w k kvs).
Proof.
  unfold after_upd. destruct (rows (segment_table w) !! k) as [r|] eqn:Hk.
  - exists true. by apply db_upd_found.
  - exists false. by apply db_upd_missing.
Qed.

Lemma update_segment_valid (m uid : value) (k : Z) w :
  get m "id" = VInt k ->
  is_string (get m "name") = true ->
  is_map (get m "definition") = true ->
  is_integer uid = true ->
  is_string (get m "revision_message") = true ->
  let w1 := after_upd w k (update_columns m) in
  let segment := stored_segment w1 k in
  update_segment m uid w =
  (Ok segment,
   set_events
     (events w1 ++
      [("segment-update"%string,
        assoc (assoc segment "actor_id" uid)
              "revision_message" (get m "revision_message"))]) w1).
Proof.
  intros Hid Hn Hd Hu Hr w1 segment. unfold update_segment.
  rewrite (bind_ok _ _ w tt w).
  2:{ apply pre_holds. cbn. by rewrite Hid, Hn, Hd, Hu, Hr. }
  rewrite Hid. destruct (db_upd_run k (update_columns m) w) as [b Hb].
  rewrite (bind_ok _ _ _ _ _ Hb).
  rewrite (bind_ok _ _ _ _ _ (retrieve_segment_run _ _)).
  by rewrite (bind_ok _ _ _ _ _ (publish_event_run _ _ _)).
Qed.

Lemma update_segment_invalid (m uid : value) w :
  forallb (fun b => b)
    [is_integer (get m "id"); is_string (get m "name");
     is_map (get m "definition"); is_integer uid;
     is_string (get m "revision_message")] = false ->
  update_segment m uid w = (Throw AssertionError, w).
Proof.
  intros Hpre. unfold update_segment.
  by rewrite (bind_throw _ _ _ _ _ (pre_fails _ _ Hpre)).
Qed.

Lemma delete_segment_valid (uid : value) (k : Z) w :
  let w1 := after_upd w k (<["is_active" := VBool false]> ∅) in
  let segment := stored_segment w1 k in
  delete_segment (VInt k) uid w =
  (Ok segment,
   set_events
     (events w1 ++ [("segment-delete"%string, assoc segment "actor_id" uid)])
     w1).
Proof.
  intros w1 segment. unfold delete_segment.
  rewrite (bind_ok _ _ w tt w) by done.
  destruct (db_upd_run k (<["is_active" := VBool false]> ∅) w) as [b Hb].
  rewrite (bind_ok _ _ _ _ _ Hb).
  rewrite (bind_ok _ _ _ _ _ (retrieve_segment_run _ _)).
  by rewrite (bind_ok _ _ _ _ _ (publish_event_run _ _ _)).
Qed.

Lemma delete_segment_invalid (id uid : value) w :
  is_integer id = false ->
  delete_segment id uid w = (Throw AssertionError, w).
Proof.
  intros Hpre. unfold delete_segment.
  rewrite (bind_throw _ _ w AssertionError w); [done|].
  apply pre_fails. cbn. by rewrite Hpre.
Qed.

Lemma create_segment_valid
    (table_id name description creator_id definition : value) w :
  is_integer table_id = true ->
  is_string name = true ->
  is_integer creator_id = true ->
  is_map definition = true ->
  let r := created_row w table_id name description creator_id definition in
  let w1 := after_ins w r in
  let k := next_id (segment_table w) in
  let segment :=
    post_select Segment (types_out Segment (<["id" := VInt k]> r)) in
  let w2 := set_events (events w1 ++ [("segment-create"%string, segment)]) w1 in
  create_segment table_id name description creator_id definition w =
  (Ok (hydrated w2 segment "creator"), w2).
Proof.
  intros Ht Hn Hc Hd r w1 k segment w2. unfold create_segment.
  rewrite (bind_ok _ _ w tt w).
  2:{ apply pre_holds. cbn. by rewrite Ht, Hn, Hc, Hd. }
  assert (Hins : db_ins Segment
                   (<["table_id" := table_id]>
                   (<["creator_id" := creator_id]>
                   (<["name" := name]>
                   (<["description" := description]>
                   (<["is_active" := VBool true]>
                   (<["definition" := definition]> ∅)))))) w
                 = (Ok segment, w1)).
  { unfold db_ins.
    rewrite (bind_ok _ _ w k w) by done.
    rewrite (bind_ok _ _ w (clock w) w) by done.
    rewrite (bind_ok _ _ w tt w1) by done.
    rewrite db_sel_one_id. cbn [table w1 after_ins set_clock set_table
      segment_table rows]. by rewrite lookup_insert_eq. }
  rewrite (bind_ok _ _ _ _ _ Hins).
  rewrite (bind_ok _ _ _ _ _ (publish_event_run _ _ _)).
  apply hydrate_run.
Qed.

Lemma create_segment_invalid
    (table_id name description creator_id definition : value) w :
  forallb (fun b => b)
    [is_integer table_id; is_string name; is_integer creator_id;
     is_map definition] = false ->
  create_segment table_id name description creator_id definition w =
  (Throw AssertionError, w).
Proof.
  intros Hpre. unfold create_segment.
  by rewrite (bind_throw _ _ _ _ _ (pre_fails _ _ Hpre)).
Qed.

(** *** The fields of a record as read *)

Lemma segment_view_unfold w (r : row) :
  segment_view w r =
  VMap (<["creator" := user_by_id w (default VNil (r !! "creator_id"))]>
       (<["description" := jdbc_clob_to_str (default VNil (r !! "description"))]>
       (<["creator" := VDelay (default VNil (r !! "creator_id"))]>
       (alter json_out "definition" r)))).
Proof.
  unfold segment_view, hydrated, post_select, types_out, get, assoc.
  by row_lookup.
Qed.

Lemma segment_view_get w (r : row) (f : string) :
  f <> "creator"%string -> f <> "description"%string ->
  f <> "definition"%string ->
  get (segment_view w r) f = default VNil (r !! f).
Proof.
  intros ???. rewrite segment_view_unfold. unfold get. by row_lookup.
Qed.

Lemma segment_view_creator w (r : row) :
  get (segment_view w r) "creator" =
  user_by_id w (default VNil (r !! "creator_id")).
Proof. rewrite segment_view_unfold. unfold get. by row_lookup. Qed.

Lemma segment_view_description w (r : row) :
  get (segment_view w r) "description" =
  jdbc_clob_to_str (default VNil (r !! "description")).
Proof. rewrite segment_view_unfold. unfold get. by row_lookup. Qed.

Lemma segment_view_definition w (r : row) :
  get (segment_view w r) "definition" =
  default VNil (json_out <$> r !! "definition").
Proof. rewrite segment_view_unfold. unfold get. by row_lookup. Qed.

Lemma user_by_id_not_delay w (c : value) : is_delay (user_by_id w c) = false.
Proof.
  unfold user_by_id. destruct c; try done.
  by destruct (rows (user_table w) !! n).
Qed.

Lemma after_upd_found w (k : Z) (kvs r : row) :
  rows (segment_table w) !! k = Some r ->
  rows (segment_table (after_upd w k kvs)) !! k = Some (updated_row w kvs r).
Proof.
  intros Hk. unfold after_upd. rewrite Hk. unfold written.
  cbn [set_clock set_table segment_table rows]. by rewrite lookup_insert_eq.
Qed.

Lemma after_upd_events w (k : Z) (kvs : row) :
  events (after_upd w k kvs) = events w.
Proof. unfold after_upd. by destruct (rows (segment_table w) !! k). Qed.

Lemma stored_segment_found w (k : Z) (r : row) :
  rows (segment_table w) !! k = Some r ->
  stored_segment w k = segment_view w (<["id" := VInt k]> r).
Proof. intros Hk. unfold stored_segment. by rewrite Hk. Qed.

(** [db/upd] leaves alone the columns it is not given, but for the
    [updated_at] stamp. *)
Lemma updated_row_frame w (kvs r : row) (f : string) :
  kvs !! f = None -> f <> "updated_at"%string ->
  updated_row w kvs r !! f = r !! f.
Proof.
  intros Hf Hne. unfold updated_row, types_in.
  rewrite lookup_insert_ne by done. rewrite lookup_union.
  destruct (decide (f = "definition"%string)) as [->|Hd].
  - rewrite lookup_alter_eq, Hf. cbn. by destruct (r !! "definition").
  - rewrite lookup_alter_ne by done. rewrite Hf. by destruct (r !! f).
Qed.

(** [db/upd] writes the columns it is given, the typed ones encoded. *)
Lemma updated_row_written w (kvs r : row) (f : string) (v : value) :
  kvs !! f = Some v -> f <> "updated_at"%string ->
  updated_row w kvs r !! f =
  Some (if decide (f = "definition"%string) then json_in v else v).
Proof.
  intros Hf Hne. unfold updated_row, types_in.
  rewrite lookup_insert_ne by done. rewrite lookup_union.
  case_decide as Hd.
  - subst f. rewrite lookup_alter_eq, Hf. cbn. by destruct (r !! "definition").
  - rewrite lookup_alter_ne by done. rewrite Hf. by destruct (r !! f).
Qed.

Lemma column_is_true (r : row) (c : string) (v : value) :
  is_integer v || is_string v || match v with VBool _ => true | _ => false end
    = true ->
  column_is r c v = true <-> r !! c = Some v.
Proof.
  intros Hv. unfold column_is. destruct (r !! c) as [x|]; [|done].
  destruct x, v; cbn in *; try done;
    rewrite bool_decide_eq_true; split; congruence.
Qed.

(** The rows [segment_ids] keeps: those of the table, with the flag. *)
Lemma wanted_true (n : Z) (flag : option bool) (r : row) :
  wanted n flag r = true <->
  r !! "table_id" = Some (VInt n) /\
  match flag with
  | Some b => r !! "is_active" = Some (VBool b)
  | None => True
  end.
Proof.
  unfold wanted. rewrite andb_true_iff, column_is_true by done.
  destruct flag as [b|]; [by rewrite column_is_true|]. tauto.
Qed.

(** *** Listings *)

#[local] Instance order_asc_total column : Total (order_asc column).
Proof. intros r1 r2. unfold order_asc. apply (total String.le). Qed.

#[local] Instance order_asc_trans column : Transitive (order_asc column).
Proof. intros r1 r2 r3. unfold order_asc. apply transitivity. Qed.

Lemma retrieve_segments_run (n : Z) (state : string) w :
  retrieve_segments (VInt n) (VKw state) w =
  (Ok (segment_view w <$>
         select_rows Segment (where_clause n state) (Some "name"%string) w), w).
Proof.
  unfold retrieve_segments.
  rewrite (bind_ok _ _ w tt w) by done.
  unfold where_clause, is_kw.
  destruct (bool_decide (state = "all"%string));
    [|destruct (bool_decide (state = "active"%string))];
    rewrite (bind_ok _ _ _ _ _ (db_sel_many_run _ _ _ _));
    rewrite hydrate_all_run; rewrite <- list_fmap_compose; reflexivity.
Qed.

Lemma row_matches_wanted (n : Z) (state : string) (flag : option bool)
    (kr : Z * row) :
  flag = (if bool_decide (state = "all"%string) then None
          else Some (bool_decide (state = "active"%string))) ->
  row_matches (where_clause n state) (with_id kr) = wanted n flag kr.2.
Proof.
  intros ->. unfold where_clause, wanted, row_matches, column_is, with_id.
  destruct (bool_decide (state = "all"%string)); cbn;
    rewrite ?lookup_insert_ne by done; by rewrite ?andb_true_r.
Qed.

Lemma select_rows_wanted (n : Z) (state : string) (flag : option bool) w :
  flag = (if bool_decide (state = "all"%string) then None
          else Some (bool_decide (state = "active"%string))) ->
  select_rows Segment (where_clause n state) None w =
  with_id <$> filter (fun kr : Z * row => wanted n flag kr.2 = true)
                     (map_to_list (rows (segment_table w))).
Proof.
  intros Hflag. unfold select_rows, order_by. rewrite filter_fmap_with_id.
  f_equal. apply list_filter_iff. intros kr.
  by rewrite (row_matches_wanted n state flag).
Qed.

Lemma segment_view_stored w (l : list (Z * row)) :
  l ⊆ map_to_list (rows (segment_table w)) ->
  segment_view w <$> (with_id <$> l) = stored_segment w <$> l.*1.
Proof.
  induction l as [|kr l IH]; intros Hl; [done|]. rewrite !fmap_cons.
  rewrite IH by (intros x Hx; apply Hl; by right). f_equal.
  assert (Hin : kr ∈ map_to_list (rows (segment_table w)))
    by (apply Hl; left).
  destruct kr as [k r]. apply elem_of_map_to_list in Hin.
  symmetry. exact (stored_segment_found w k r Hin).
Qed.

Lemma name_of_segment_view w (r : row) :
  name_of (segment_view w r) = order_key "name" r.
Proof.
  unfold name_of, order_key. rewrite segment_view_get by done.
  by destruct (r !! "name") as [[]|].
Qed.

Lemma retrieve_segments_listing (n : Z) (state : string) (flag : option bool) w :
  flag = (if bool_decide (state = "all"%string) then None
          else Some (bool_decide (state = "active"%string))) ->
  returns_listing w n state flag.
Proof.
  intros Hflag. unfold returns_listing. rewrite retrieve_segments_run.
  eexists. split; [reflexivity|]. split; [|split].
  - unfold select_rows at 1. cbn [order_by].
    rewrite merge_sort_Permutation.
    change (filter _ (with_id <$> _))
      with (select_rows Segment (where_clause n state) None w).
    rewrite (select_rows_wanted n state flag) by done.
    unfold segment_ids. rewrite segment_view_stored; [done|].
    intros x Hx. by apply list_elem_of_filter in Hx as [_ Hx].
  - unfold select_rows. cbn [order_by].
    apply (StronglySorted_fmap _ (order_asc "name") by_name).
    + intros r1 r2. unfold by_name. by rewrite !name_of_segment_view.
    + apply StronglySorted_merge_sort; apply _.
  - apply Forall_fmap, Forall_forall. intros r _. cbn.
    rewrite segment_view_creator. by rewrite segment_view_get.
Qed.

(** *** Physical deletion *)

Lemma db_del_revisions (k : Z) w :
  db_del Revision
    [("model"%string, VStr "Segment"); ("model_id"%string, VInt k)] w
  = (Ok tt, without_revisions w k).
Proof.
  unfold db_del, modify, without_revisions. do 3 f_equal.
  apply map_filter_ext. intros j rev _.
  unfold row_matches, is_revision_of, column_is, with_id. cbn.
  rewrite !lookup_insert_ne by done. by rewrite andb_true_r.
Qed.

Lemma db_del_segment (k : Z) w :
  db_del Segment [("id"%string, VInt k)] w = (Ok tt, without_segment w k).
Proof.
  unfold db_del, modify, without_segment. do 3 f_equal.
  apply map_eq. intros j. apply option_eq. intros r.
  rewrite map_lookup_filter_Some, lookup_delete_Some.
  rewrite <- not_true_iff_false, (row_matches_id (VInt k) (j, r)). cbn.
  split; intros [? ?]; split; congruence.
Qed.

Lemma pre_cascade_delete_prod (obj : value) w :
  is_prod w = true ->
  pre_cascade_delete Segment obj w
  = (Throw (Exception "deleting a Segment is not supported."), w).
Proof.
  intros Hprod. unfold pre_cascade_delete, config_is_prod.
  rewrite (bind_ok _ _ w true w) by (unfold gets; by rewrite Hprod). done.
Qed.

Lemma pre_cascade_delete_test (obj : value) (k : Z) w :
  is_prod w = false ->
  get obj "id" = VInt k ->
  pre_cascade_delete Segment obj w = (Ok tt, without_revisions w k).
Proof.
  intros Hprod Hid. unfold pre_cascade_delete, config_is_prod.
  rewrite (bind_ok _ _ w false w) by (unfold gets; by rewrite Hprod).
  rewrite Hid. unfold db_cascade_delete.
  rewrite (bind_ok _ _ _ _ _ (db_sel_many_run _ _ _ _)).
  rewrite (bind_ok _ _ _ _ _ (for_each_skip _ _)).
  apply db_del_revisions.
Qed.

Lemma cascade_delete_selects (k : Z) (r : row) w :
  rows (segment_table w) !! k = Some r ->
  db_sel_many Segment [("id"%string, VInt k)] None w
  = (Ok [post_select Segment (types_out Segment (<["id" := VInt k]> r))], w).
Proof.
  intros Hk. rewrite db_sel_many_run, select_rows_id. cbn [table].
  by rewrite Hk.
Qed.

(** *** The caller *)

Lemma after_upd_caller (u : value) w (k : Z) (kvs : row) :
  after_upd (with_current_user u w) k kvs
  = with_current_user u (after_upd w k kvs).
Proof.
  unfold after_upd. cbn [with_current_user segment_table].
  by destruct (rows (segment_table w) !! k).
Qed.

Lemma stored_segment_caller (u : value) w (k : Z) :
  stored_segment (with_current_user u w) k = stored_segment w k.
Proof. done. Qed.
End StoreFacts.

(** ** Properties of the persistence functions *)

Section Properties.
Context `{JsonCodec}.

(** C4, amended: for valid inputs (integer table id and creator id, a
    string name, a map definition) whose description is nil or a string and
    whose definition the JSON text of the column reads back as written,
    [create-segment] succeeds, and [retrieve-segment] of the new id then
    returns the very record that was created: active, with the table id,
    creator id, name, description and definition that were passed, and with
    its creator resolved to the user record of that id. The two conditions
    are needed: a record is read through [jdbc-clob->str] and through the
    JSON parser, whatever was passed. *)
Theorem C4_create_then_retrieve
    (table_id name description creator_id definition : value) w :
  is_integer table_id = true ->
  is_string name = true ->
  is_integer creator_id = true ->
  is_map definition = true ->
  description = VNil \/ is_string description = true ->
  parse_string (generate_string definition) = definition ->
  exists created w1 id,
    create_segment table_id name description creator_id definition w
      = (Ok created, w1) /\
    get created "id" = VInt id /\
    exists seg,
      retrieve_segment (VInt id) w1 = (Ok seg, w1) /\
      seg = created /\
      get seg "is_active" = VBool true /\
      get seg "table_id" = table_id /\
      get seg "creator_id" = creator_id /\
      get seg "name" = name /\
      get seg "description" = description /\
      get seg "definition" = definition /\
      get seg "creator" = user_by_id w creator_id /\
      is_delay (get seg "creator") = false.
Proof.
  intros Ht Hn Hc Hd Hdesc Hjson.
  rewrite create_segment_valid by done.
  set (r := created_row w table_id name description creator_id definition).
  set (k := next_id (segment_table w)).
  set (w1 := after_ins w r).
  set (w2 := set_events _ w1).
  assert (Hview : hydrated w2 (post_select Segment
                     (types_out Segment (<["id" := VInt k]> r))) "creator"
                  = segment_view w2 (<["id" := VInt k]> r)) by done.
  rewrite Hview.
  assert (Hstored : stored_segment w2 k = segment_view w2 (<["id" := VInt k]> r)).
  { unfold stored_segment, w2, w1, after_ins. cbn [set_events set_clock
      set_table segment_table rows]. by rewrite lookup_insert_eq. }
  exists (segment_view w2 (<["id" := VInt k]> r)), w2, k.
  split; [done|].
  split; [rewrite segment_view_get by done; by row_lookup|].
  exists (segment_view w2 (<["id" := VInt k]> r)).
  rewrite retrieve_segment_run, Hstored.
  assert (Hcre : get (segment_view w2 (<["id" := VInt k]> r)) "creator"
                 = user_by_id w creator_id).
  { rewrite segment_view_creator. unfold r, created_row, stamp_insert,
      types_in, timestamped. by row_lookup. }
  assert (Hrow : forall f : string,
             f <> "creator"%string -> f <> "description"%string ->
             f <> "definition"%string ->
             get (segment_view w2 (<["id" := VInt k]> r)) f
             = default VNil (<["id" := VInt k]> r !! f)).
  { intros f ???. by apply segment_view_get. }
  split; [done|]. split; [done|].
  split; [rewrite Hrow by done; unfold r, created_row, stamp_insert, types_in,
            timestamped; by row_lookup|].
  split; [rewrite Hrow by done; unfold r, created_row, stamp_insert, types_in,
            timestamped; by row_lookup|].
  split; [rewrite Hrow by done; unfold r, created_row, stamp_insert, types_in,
            timestamped; by row_lookup|].
  split; [rewrite Hrow by done; unfold r, created_row, stamp_insert, types_in,
            timestamped; by row_lookup|].
  split.
  { rewrite segment_view_description.
    unfold r, created_row, stamp_insert, types_in, timestamped. row_lookup.
    destruct Hdesc as [->|Hs]; [done|]. by destruct description. }
  split.
  { rewrite segment_view_definition.
    unfold r, created_row, stamp_insert, types_in, timestamped. row_lookup.
    unfold json_in, json_out. done. }
  split; [done|].
  rewrite Hcre. apply user_by_id_not_delay.
Qed.

(** C2, amended: [create-segment] fails with an [AssertionError] (the
    spec's ValidationError), leaving the world as it was -- nothing stored,
    no event, no revision -- exactly when the table id or the creator id is
    not an integer, the name is not a string or the definition is not a map;
    otherwise it succeeds, stores the row under the next id and publishes
    one [segment-create] event. Any string is accepted as a name. *)
Theorem C2_create_validation
    (table_id name description creator_id definition : value) w :
  (is_integer table_id && is_string name && is_integer creator_id
     && is_map definition = false ->
   create_segment table_id name description creator_id definition w
     = (Throw AssertionError, w)) /\
  (is_integer table_id && is_string name && is_integer creator_id
     && is_map definition = true ->
   exists seg w1 published,
     create_segment table_id name description creator_id definition w
       = (Ok seg, w1) /\
     get seg "name" = name /\
     is_Some (rows (segment_table w1) !! next_id (segment_table w)) /\
     events w1 = events w ++ [("segment-create"%string, published)]).
Proof.
  split; intros Hpre.
  - apply create_segment_invalid. cbn. rewrite andb_true_r.
    by rewrite !andb_assoc.
  - apply andb_prop in Hpre as [Hpre Hd]. apply andb_prop in Hpre as [Hpre Hc].
    apply andb_prop in Hpre as [Ht Hn].
    rewrite create_segment_valid by done.
    eexists _, _, _. split; [reflexivity|]. split; [|split].
    + change (hydrated ?w (post_select Segment (types_out Segment ?r)) "creator")
        with (segment_view w r).
      rewrite segment_view_get by done.
      unfold created_row, stamp_insert, types_in, timestamped. by row_lookup.
    + unfold after_ins. cbn [set_events set_clock set_table segment_table rows].
      rewrite lookup_insert_eq. by eexists.
    + reflexivity.
Qed.

(** C6, amended: [update-segment] checks that the id and the acting user id
    are integers, the name a string, the definition a map and the revision
    message a string. When one of these fails -- in particular when the
    revision message is not a string -- it throws an [AssertionError] (the
    spec's ValidationError) and leaves the world as it was; when all hold it
    succeeds and publishes one [segment-update] event. Any string is
    accepted as a revision message. *)
Theorem C6_update_validation (segment_map user_id : value) w :
  (is_string (get segment_map "revision_message") = false ->
   update_segment segment_map user_id w = (Throw AssertionError, w)) /\
  (is_integer (get segment_map "id") && is_string (get segment_map "name")
     && is_map (get segment_map "definition") && is_integer user_id
     && is_string (get segment_map "revision_message") = false ->
   update_segment segment_map user_id w = (Throw AssertionError, w)) /\
  (is_integer (get segment_map "id") && is_string (get segment_map "name")
     && is_map (get segment_map "definition") && is_integer user_id
     && is_string (get segment_map "revision_message") = true ->
   exists seg w1 published,
     update_segment segment_map user_id w = (Ok seg, w1) /\
     events w1 = events w ++ [("segment-update"%string, published)]).
Proof.
  assert (Hinv : is_integer (get segment_map "id")
                 && is_string (get segment_map "name")
                 && is_map (get segment_map "definition")
                 && is_integer user_id
                 && is_string (get segment_map "revision_message") = false ->
                 update_segment segment_map user_id w = (Throw AssertionError, w)).
  { intros Hpre. apply update_segment_invalid. cbn. rewrite andb_true_r.
    by rewrite !andb_assoc. }
  split; [|split]; [|done|].
  - intros Hr. apply Hinv. rewrite Hr. apply andb_false_r.
  - intros Hpre.
    apply andb_prop in Hpre as [Hpre Hr]. apply andb_prop in Hpre as [Hpre Hu].
    apply andb_prop in Hpre as [Hpre Hd]. apply andb_prop in Hpre as [Hi Hn].
    destruct (get segment_map "id") as [| |k| | | | |] eqn:Hid; try done.
    rewrite (update_segment_valid _ _ k) by done.
    eexists _, _, _. split; [reflexivity|]. cbn [events set_events].
    by rewrite after_upd_events.
Qed.

(** C7: an [update-segment] call on an existing Segment, whatever its
    outcome, leaves the columns of the stored row as they were except
    [name], [description], [definition] (the three it writes) and the
    store-maintained [updated_at]; the record read back before and after
    has the same [id], [table_id], [creator_id], [is_active] and
    [created_at]. *)
Theorem C7_update_frame (segment_map user_id : value) (k : Z) (r : row) w :
  get segment_map "id" = VInt k ->
  rows (segment_table w) !! k = Some r ->
  let w' := (update_segment segment_map user_id w).2 in
  exists r',
    rows (segment_table w') !! k = Some r' /\
    (forall f : string,
       f ∉ ["name"; "description"; "definition"; "updated_at"]%string ->
       r' !! f = r !! f) /\
    exists before after,
      retrieve_segment (VInt k) w = (Ok before, w) /\
      retrieve_segment (VInt k) w' = (Ok after, w') /\
      forall f : string,
        f ∈ ["id"; "table_id"; "creator_id"; "is_active"; "created_at"]%string ->
        get after f = get before f.
Proof.
  intros Hid Hk w'.
  assert (Hw' : exists r',
             rows (segment_table w') !! k = Some r' /\
             forall f : string,
               f ∉ ["name"; "description"; "definition"; "updated_at"]%string ->
               r' !! f = r !! f).
  { subst w'.
    destruct (forallb (fun b => b)
                [is_integer (get segment_map "id");
                 is_string (get segment_map "name");
                 is_map (get segment_map "definition"); is_integer user_id;
                 is_string (get segment_map "revision_message")]) eqn:Hpre.
    - cbn in Hpre. rewrite andb_true_r in Hpre.
      apply andb_prop in Hpre as [_ Hpre]. apply andb_prop in Hpre as [Hn Hpre].
      apply andb_prop in Hpre as [Hd Hpre]. apply andb_prop in Hpre as [Hu Hr].
      rewrite (update_segment_valid _ _ k) by done.
      cbn [snd set_events segment_table].
      exists (updated_row w (update_columns segment_map) r).
      split; [by apply after_upd_found|].
      intros f Hf. apply updated_row_frame.
      + unfold update_columns.
        rewrite !not_elem_of_cons in Hf. destruct Hf as (?&?&?&?&_).
        by row_lookup.
      + rewrite !not_elem_of_cons in Hf. by destruct Hf as (?&?&?&?&_).
    - rewrite update_segment_invalid by done. cbn [snd].
      exists r. by split. }
  destruct Hw' as (r' & Hk' & Hframe).
  exists r'. split; [done|]. split; [done|].
  exists (stored_segment w k), (stored_segment w' k).
  rewrite !retrieve_segment_run. split; [done|]. split; [done|].
  intros f Hf.
  rewrite (stored_segment_found _ _ _ Hk), (stored_segment_found _ _ _ Hk').
  rewrite !elem_of_cons in Hf.
  destruct Hf as [->|[->|[->|[->|[->|Hf]]]]]; [..|by apply elem_of_nil in Hf];
    rewrite !segment_view_get by done; row_lookup;
    try (rewrite Hframe; [done|]; rewrite !not_elem_of_cons;
         repeat split; try done; apply not_elem_of_nil); done.
Qed.

(** C9: on a Segment that is already soft-deleted ([is_active] false),
    [delete-segment] succeeds again: it rewrites the row (the [updated_at]
    stamp moves), publishes one more [segment-delete] event carrying the
    actor and returns the inactive record; and a valid [update-segment]
    succeeds on it as well, writes the new name, description and definition
    and publishes a [segment-update] event. Neither looks at [is_active]. *)
Theorem C9_soft_delete_not_terminal (k : Z) (r : row) w :
  rows (segment_table w) !! k = Some r ->
  r !! "is_active" = Some (VBool false) ->
  (forall user_id, exists seg w',
     delete_segment (VInt k) user_id w = (Ok seg, w') /\
     get seg "id" = VInt k /\
     get seg "is_active" = VBool false /\
     rows (segment_table w') !! k =
       Some (<["updated_at" := VInt (clock w)]>
               (<["is_active" := VBool false]> r)) /\
     events w' =
       events w ++ [("segment-delete"%string, assoc seg "actor_id" user_id)]) /\
  (forall segment_map user_id,
     get segment_map "id" = VInt k ->
     is_string (get segment_map "name") = true ->
     is_map (get segment_map "definition") = true ->
     is_integer user_id = true ->
     is_string (get segment_map "revision_message") = true ->
     exists seg w' r',
       update_segment segment_map user_id w = (Ok seg, w') /\
       get seg "id" = VInt k /\
       get seg "name" = get segment_map "name" /\
       get seg "is_active" = VBool false /\
       rows (segment_table w') !! k = Some r' /\
       r' !! "name" = Some (get segment_map "name") /\
       r' !! "description" = Some (get segment_map "description") /\
       r' !! "definition" = Some (json_in (get segment_map "definition")) /\
       r' !! "is_active" = Some (VBool false) /\
       events w' =
         events w ++
         [("segment-update"%string,
           assoc (assoc seg "actor_id" user_id)
                 "revision_message" (get segment_map "revision_message"))]).
Proof.
  intros Hk Hact. split.
  - intros user_id. rewrite delete_segment_valid.
    set (kvs := <["is_active" := VBool false]> (∅ : row)).
    pose proof (after_upd_found w k kvs r Hk) as Hk'.
    assert (Hrow : updated_row w kvs r =
                   <["updated_at" := VInt (clock w)]>
                     (<["is_active" := VBool false]> r)).
    { unfold updated_row, types_in, kvs. f_equal.
      apply map_eq. intros f. rewrite lookup_union.
      destruct (decide (f = "is_active"%string)) as [->|Hne].
      - row_lookup. by rewrite Hact.
      - rewrite (lookup_insert_ne r) by done.
        assert (Hnone : alter json_in "definition" kvs !! f = None).
        { unfold kvs. destruct (decide (f = "definition"%string)) as [->|Hd];
            [by row_lookup|].
          rewrite lookup_alter_ne by done.
          rewrite lookup_insert_ne by done. apply lookup_empty. }
        fold kvs. rewrite Hnone. by destruct (r !! f). }
    eexists _, _. split; [reflexivity|].
    cbn [set_events segment_table events].
    rewrite (stored_segment_found _ _ _ Hk').
    rewrite !segment_view_get by done. rewrite Hrow. row_lookup.
    split; [done|]. split; [done|].
    split; [by rewrite Hk', Hrow|].
    by rewrite after_upd_events.
  - intros segment_map user_id Hid Hn Hd Hu Hr.
    rewrite (update_segment_valid _ _ k) by done.
    set (kvs := update_columns segment_map).
    pose proof (after_upd_found w k kvs r Hk) as Hk'.
    eexists _, _, (updated_row w kvs r). split; [reflexivity|].
    cbn [set_events segment_table events].
    rewrite (stored_segment_found _ _ _ Hk').
    rewrite !segment_view_get by done.
    assert (Hname : updated_row w kvs r !! "name" = Some (get segment_map "name")).
    { by rewrite (updated_row_written _ _ _ _ (get segment_map "name")). }
    assert (Hdesc : updated_row w kvs r !! "description"
                    = Some (get segment_map "description")).
    { by rewrite (updated_row_written _ _ _ _ (get segment_map "description")). }
    assert (Hdef : updated_row w kvs r !! "definition"
                   = Some (json_in (get segment_map "definition"))).
    { by rewrite (updated_row_written _ _ _ _ (get segment_map "definition")). }
    assert (Hflag : updated_row w kvs r !! "is_active" = Some (VBool false)).
    { by rewrite updated_row_frame. }
    split; [by row_lookup|].
    split; [row_lookup; by rewrite Hname|].
    split; [row_lookup; by rewrite Hflag|].
    repeat (split; [done|]).
    by rewrite after_upd_events.
Qed.

(** C8: [serialize-instance] of a Segment instance returns a map that
    holds exactly the entries of the instance other than [created_at],
    [updated_at] and those whose value is a delay. It never looks inside a
    delay: what a delayed field such as [:creator] would yield has no
    bearing on the result, and the [:creator] delay of a record as
    [post-select] builds it is dropped. *)
Theorem C8_serialize_instance (instance : row) :
  exists snapshot : row,
    serialize_instance (VMap instance) = Ok (VMap snapshot) /\
    (forall (f : string) (v : value),
       snapshot !! f = Some v <->
       instance !! f = Some v /\ f <> "created_at"%string /\
       f <> "updated_at"%string /\ is_delay v = false) /\
    (forall (f : string) (c : value),
       serialize_instance (VMap (<[f := VDelay c]> instance))
       = serialize_instance (VMap (delete f instance))) /\
    (forall r : row, exists s : row,
       serialize_instance (post_select Segment r) = Ok (VMap s) /\
       s !! "creator" = None).
Proof.
  assert (Hlookup : forall (m : row) (f : string) (v : value),
             filter_vals (fun v => negb (is_delay v))
               (delete "updated_at" (delete "created_at" m)) !! f = Some v <->
             m !! f = Some v /\ f <> "created_at"%string /\
             f <> "updated_at"%string /\ is_delay v = false).
  { intros m f v. unfold filter_vals.
    rewrite map_lookup_filter_Some, !lookup_delete_Some. cbn.
    rewrite negb_true_iff. intuition congruence. }
  eexists. split; [reflexivity|]. split; [apply Hlookup|]. split.
  - intros f c. cbn. do 2 f_equal. apply map_eq. intros g. apply option_eq.
    intros v. rewrite !Hlookup, lookup_insert_Some, lookup_delete_Some.
    split.
    + intros ([[-> <-]|[? ?]] & ? & ? & Hd); [done|by eauto].
    + intros ([? ?] & ? & ? & Hd). by eauto 10.
  - intros r. eexists. split; [reflexivity|].
    apply eq_None_not_Some. intros [v Hv]. apply Hlookup in Hv.
    destruct Hv as (Hv & _ & _ & Hd).
    rewrite lookup_insert_ne, lookup_insert_eq in Hv by done.
    by injection Hv as <-.
Qed.

(** C5: for every table id, [retrieve-segments] returns exactly the
    Segments of that table whose [is_active] flag matches the requested
    state -- the active ones for [:active], the inactive ones for
    [:deleted], all of them for [:all] -- in ascending order of name, each
    with its creator hydrated; called without a state it does what it does
    for [:active]. *)
Theorem C5_retrieve_segments (n : Z) w :
  returns_listing w n "active" (Some true) /\
  returns_listing w n "deleted" (Some false) /\
  returns_listing w n "all" None /\
  retrieve_segments_default (VInt n) w
    = retrieve_segments (VInt n) (VKw "active") w.
Proof.
  split; [by apply retrieve_segments_listing|].
  split; [by apply retrieve_segments_listing|].
  split; [by apply retrieve_segments_listing|].
  reflexivity.
Qed.

(** C10: a keyword state other than [:active] and [:all] -- [:deleted] or
    any keyword outside the documented three, such as [:foo] -- makes
    [retrieve-segments] do exactly what it does for [:deleted]: it does not
    fail, and on an integer table id it lists the Segments of the table
    whose [is_active] is false. *)
Theorem C10_unrecognised_state (table_id : value) (state : string) w :
  state <> "active"%string ->
  state <> "all"%string ->
  retrieve_segments table_id (VKw state) w
    = retrieve_segments table_id (VKw "deleted") w /\
  (forall n : Z, table_id = VInt n -> returns_listing w n state (Some false)).
Proof.
  intros Hactive Hall. split.
  - unfold retrieve_segments, is_kw.
    by rewrite !bool_decide_eq_false_2 by done.
  - intros n ->. apply retrieve_segments_listing.
    by rewrite !bool_decide_eq_false_2 by done.
Qed.

(** C3: physical (cascade) deletion of an existing Segment. In production
    the [pre-cascade-delete] hook throws, so the deletion throws and the
    world stays as it was: the row is still there, untouched, not marked
    inactive. Outside production the hook removes the revision records of
    the Segment (and only those), and the deletion then removes the row. *)
Theorem C3_physical_delete (k : Z) (r : row) w :
  rows (segment_table w) !! k = Some r ->
  (is_prod w = true ->
   (forall obj,
      pre_cascade_delete Segment obj w
      = (Throw (Exception "deleting a Segment is not supported."), w)) /\
   cascade_delete Segment [("id"%string, VInt k)] w
   = (Throw (Exception "deleting a Segment is not supported."), w)) /\
  (is_prod w = false ->
   (forall obj,
      get obj "id" = VInt k ->
      pre_cascade_delete Segment obj w = (Ok tt, without_revisions w k)) /\
   exists w',
     cascade_delete Segment [("id"%string, VInt k)] w = (Ok tt, w') /\
     w' = without_segment (without_revisions w k) k /\
     rows (segment_table w') !! k = None /\
     (forall (j : Z) (rev : row),
        rows (revision_table w') !! j = Some rev <->
        rows (revision_table w) !! j = Some rev /\
        is_revision_of k rev = false)).
Proof.
  intros Hk. split; intros Hprod.
  - split; [intros obj; by apply pre_cascade_delete_prod|].
    unfold cascade_delete, db_cascade_delete.
    rewrite (bind_ok _ _ _ _ _ (cascade_delete_selects _ _ _ Hk)).
    cbn [for_each].
    rewrite (bind_throw _ _ w
               (Exception "deleting a Segment is not supported.") w); [done|].
    by rewrite (bind_throw _ _ _ _ _ (pre_cascade_delete_prod _ _ Hprod)).
  - split; [intros obj Hid; by apply pre_cascade_delete_test|].
    eexists. split; [|split; [reflexivity|]].
    + unfold cascade_delete, db_cascade_delete.
      rewrite (bind_ok _ _ _ _ _ (cascade_delete_selects _ _ _ Hk)).
      cbn [for_each].
      rewrite (bind_ok _ _ w tt (without_revisions w k)).
      * apply db_del_segment.
      * rewrite (bind_ok _ _ w tt (without_revisions w k)); [done|].
        apply pre_cascade_delete_test; [done|].
        unfold post_select, types_out, get, assoc. by row_lookup.
    + split.
      * cbn [without_segment without_revisions set_table segment_table rows].
        apply lookup_delete_eq.
      * intros j rev.
        cbn [without_segment without_revisions set_table revision_table rows].
        rewrite map_lookup_filter_Some. cbn [snd]. tauto.
Qed.

(** C1, amended: [can-write?] holds exactly when the caller, the user
    bound as current user, is a superuser; but [create-segment],
    [update-segment] and [delete-segment] never consult it, and none of
    them can fail with a permission error. In every world, whoever the
    caller and whoever the acting user, each of the three throws exactly
    when one of its [:pre] conditions fails, what it throws is then the
    [AssertionError] of the [:pre] and never anything else, and when the
    conditions hold it succeeds and makes its change -- the row is written
    and the event published -- also for a caller for whom [can-write?] is
    false. The result and the change are the same for every caller. *)
Theorem C1_store_ignores_caller w :
  can_write w = (Ok (superuser (current_user w)), w) /\
  (forall table_id name description creator_id definition,
     let call :=
       create_segment table_id name description creator_id definition in
     let valid :=
       is_integer table_id && is_string name && is_integer creator_id
         && is_map definition in
     (valid = false -> call w = (Throw AssertionError, w)) /\
     (valid = true ->
      exists seg w' r' published,
        call w = (Ok seg, w') /\
        rows (segment_table w') !! next_id (segment_table w) = Some r' /\
        r' !! "name" = Some name /\
        events w' = events w ++ [("segment-create"%string, published)]) /\
     (forall e w',
        call w = (Throw e, w') -> e = AssertionError /\ valid = false) /\
     (forall caller,
        call (with_current_user caller w)
        = ((call w).1, with_current_user caller (call w).2))) /\
  (forall segment_map user_id,
     let call := update_segment segment_map user_id in
     let valid :=
       is_integer (get segment_map "id") && is_string (get segment_map "name")
         && is_map (get segment_map "definition") && is_integer user_id
         && is_string (get segment_map "revision_message") in
     (valid = false -> call w = (Throw AssertionError, w)) /\
     (valid = true ->
      exists seg w' published,
        call w = (Ok seg, w') /\
        events w' = events w ++ [("segment-update"%string, published)] /\
        forall (k : Z) (r : row),
          get segment_map "id" = VInt k ->
          rows (segment_table w) !! k = Some r ->
          exists r',
            rows (segment_table w') !! k = Some r' /\
            r' !! "name" = Some (get segment_map "name")) /\
     (forall e w',
        call w = (Throw e, w') -> e = AssertionError /\ valid = false) /\
     (forall caller,
        call (with_current_user caller w)
        = ((call w).1, with_current_user caller (call w).2))) /\
  (forall id user_id,
     let call := delete_segment id user_id in
     let valid := is_integer id in
     (valid = false -> call w = (Throw AssertionError, w)) /\
     (valid = true ->
      exists seg w' published,
        call w = (Ok seg, w') /\
        events w' = events w ++ [("segment-delete"%string, published)] /\
        forall (k : Z) (r : row),
          id = VInt k ->
          rows (segment_table w) !! k = Some r ->
          exists r',
            rows (segment_table w') !! k = Some r' /\
            r' !! "is_active" = Some (VBool false)) /\
     (forall e w',
        call w = (Throw e, w') -> e = AssertionError /\ valid = false) /\
     (forall caller,
        call (with_current_user caller w)
        = ((call w).1, with_current_user caller (call w).2))).
Proof.
  split; [done|]. split; [|split].
  - intros table_id name description creator_id definition call valid.
    assert (Hinv : valid = false -> forall w0, call w0 = (Throw AssertionError, w0)).
    { intros Hv w0. apply create_segment_invalid. cbn. rewrite andb_true_r.
      by rewrite !andb_assoc. }
    assert (Hval : valid = true -> forall w0,
              let r := created_row w0 table_id name description creator_id
                         definition in
              let w1 := after_ins w0 r in
              let segment :=
                post_select Segment
                  (types_out Segment
                     (<["id" := VInt (next_id (segment_table w0))]> r)) in
              let w2 :=
                set_events (events w1 ++ [("segment-create"%string, segment)])
                  w1 in
              call w0 = (Ok (hydrated w2 segment "creator"), w2)).
    { intros Hv w0. unfold valid in Hv.
      apply andb_prop in Hv as [Hv Hd]. apply andb_prop in Hv as [Hv Hc].
      apply andb_prop in Hv as [Ht Hn]. by apply create_segment_valid. }
    split; [by auto|]. split; [|split].
    + intros Hv. rewrite (Hval Hv w). eexists _, _, _, _.
      split; [reflexivity|]. split; [|split].
      * unfold after_ins.
        cbn [set_events set_clock set_table segment_table rows].
        apply lookup_insert_eq.
      * unfold created_row, stamp_insert, types_in, timestamped.
        by row_lookup.
      * reflexivity.
    + intros e w' Hthrow. destruct valid eqn:Hv.
      * rewrite (Hval eq_refl w) in Hthrow. discriminate Hthrow.
      * rewrite (Hinv eq_refl w) in Hthrow. by injection Hthrow as <- _.
    + intros caller. destruct valid eqn:Hv.
      * by rewrite !(Hval eq_refl).
      * by rewrite !(Hinv eq_refl).
  - intros segment_map user_id call valid.
    assert (Hinv : valid = false -> forall w0, call w0 = (Throw AssertionError, w0)).
    { intros Hv w0. apply update_segment_invalid. cbn. rewrite andb_true_r.
      by rewrite !andb_assoc. }
    assert (Hval : valid = true ->
              exists k : Z,
                get segment_map "id" = VInt k /\
                forall w0,
                  let w1 := after_upd w0 k (update_columns segment_map) in
                  let segment := stored_segment w1 k in
                  call w0 =
                  (Ok segment,
                   set_events
                     (events w1 ++
                      [("segment-update"%string,
                        assoc (assoc segment "actor_id" user_id)
                          "revision_message"
                          (get segment_map "revision_message"))]) w1)).
    { intros Hv. unfold valid in Hv.
      apply andb_prop in Hv as [Hv Hr]. apply andb_prop in Hv as [Hv Hu].
      apply andb_prop in Hv as [Hv Hd]. apply andb_prop in Hv as [Hi Hn].
      destruct (get segment_map "id") as [| |k| | | | |] eqn:Hid; try done.
      exists k. split; [done|]. intros w0.
      by apply update_segment_valid. }
    split; [by auto|]. split; [|split].
    + intros Hv. destruct (Hval Hv) as (k & Hid & Hrun). rewrite (Hrun w).
      eexists _, _, _. split; [reflexivity|]. split.
      * cbn [events set_events]. by rewrite after_upd_events.
      * intros k' r Hid' Hk. assert (k' = k) as -> by congruence.
        eexists. split.
        -- cbn [set_events segment_table]. by apply after_upd_found.
        -- unfold update_columns.
           by rewrite (updated_row_written _ _ _ _ (get segment_map "name"))
             by (by row_lookup).
    + intros e w' Hthrow. destruct valid eqn:Hv.
      * destruct (Hval eq_refl) as (k & Hid & Hrun).
        rewrite (Hrun w) in Hthrow. discriminate Hthrow.
      * rewrite (Hinv eq_refl w) in Hthrow. by injection Hthrow as <- _.
    + intros caller. destruct valid eqn:Hv.
      * destruct (Hval eq_refl) as (k & Hid & Hrun). rewrite !Hrun.
        cbn [fst snd]. by rewrite after_upd_caller.
      * by rewrite !(Hinv eq_refl).
  - intros id user_id call valid.
    assert (Hinv : valid = false -> forall w0, call w0 = (Throw AssertionError, w0)).
    { intros Hv w0. by apply delete_segment_invalid. }
    split; [by auto|]. split; [|split].
    + intros Hv. destruct id as [| |k| | | | |]; try done.
      unfold call. rewrite delete_segment_valid.
      eexists _, _, _. split; [reflexivity|]. split.
      * cbn [events set_events]. by rewrite after_upd_events.
      * intros k' r [= <-] Hk. eexists. split.
        -- cbn [set_events segment_table]. by apply after_upd_found.
        -- by rewrite (updated_row_written _ _ _ _ (VBool false))
             by (by row_lookup).
    + intros e w' Hthrow. destruct valid eqn:Hv.
      * destruct id as [| |k| | | | |]; try done.
        unfold call in Hthrow. rewrite delete_segment_valid in Hthrow.
        discriminate Hthrow.
      * rewrite (Hinv eq_refl w) in Hthrow. by injection Hthrow as <- _.
    + intros caller. destruct valid eqn:Hv.
      * destruct id as [| |k| | | | |]; try done.
        unfold call. rewrite !delete_segment_valid. cbn [fst snd].
        by rewrite after_upd_caller.
      * by rewrite !(Hinv eq_refl).
Qed.

End Properties.

(** ** Further properties of the persistence functions *)

Section MoreProperties.
Context `{JsonCodec}.

Lemma select_rows_id_and e (k : Z) (rest : list (string * value)) w :
  select_rows e (("id"%string, VInt k) :: rest) None w =
  match rows (table e w) !! k with
  | Some r =>
      if row_matches rest (<["id" := VInt k]> r)
      then [<["id" := VInt k]> r]
      else []
  | None => []
  end.
Proof.
  unfold select_rows, order_by.
  rewrite (list_filter_iff _
             (fun r => row_matches rest r = true /\
                       row_matches [("id"%string, VInt k)] r = true)).
  2:{ intros r. unfold row_matches. cbn [forallb].
      rewrite andb_true_r, andb_true_iff. tauto. }
  rewrite <- list_filter_filter.
  change (filter (fun r => row_matches [("id"%string, VInt k)] r = true) _)
    with (select_rows e [("id"%string, VInt k)] None w).
  rewrite select_rows_id.
  destruct (rows (table e w) !! k) as [r|]; [|done].
  destruct (row_matches rest (<["id" := VInt k]> r)) eqn:Hrest.
  - by rewrite filter_cons_True.
  - rewrite filter_cons_False; [done|]. by rewrite Hrest.
Qed.

Lemma exists_segment_run (k : Z) w :
  exists_segment (VInt k) w =
  (Ok match rows (segment_table w) !! k with
      | Some r => column_is r "is_active" (VBool true)
      | None => false
      end, w).
Proof.
  unfold exists_segment. rewrite (bind_ok _ _ w tt w) by done.
  unfold db_exists, gets. rewrite select_rows_id_and. cbn [table].
  destruct (rows (segment_table w) !! k) as [r|]; [|done].
  unfold row_matches, column_is. cbn [forallb fst snd].
  rewrite lookup_insert_ne by done. rewrite andb_true_r.
  by destruct (match r !! "is_active" with Some x => _ | None => _ end).
Qed.

Lemma after_upd_tables w (k : Z) (kvs : row) :
  user_table (after_upd w k kvs) = user_table w /\
  revision_table (after_upd w k kvs) = revision_table w /\
  is_prod (after_upd w k kvs) = is_prod w /\
  current_user (after_upd w k kvs) = current_user w /\
  next_id (segment_table (after_upd w k kvs)) = next_id (segment_table w).
Proof. unfold after_upd. by destruct (rows (segment_table w) !! k). Qed.

Lemma after_upd_other w (k j : Z) (kvs : row) :
  j <> k ->
  rows (segment_table (after_upd w k kvs)) !! j = rows (segment_table w) !! j.
Proof.
  intros Hne. unfold after_upd.
  destruct (rows (segment_table w) !! k) as [r|]; [|done].
  unfold written. cbn [set_clock set_table segment_table rows].
  by rewrite lookup_insert_ne.
Qed.

Lemma after_upd_missing w (k : Z) (kvs : row) :
  rows (segment_table w) !! k = None -> after_upd w k kvs = w.
Proof. intros Hk. unfold after_upd. by rewrite Hk. Qed.

Lemma stored_segment_missing w (k : Z) :
  rows (segment_table w) !! k = None -> stored_segment w k = VNil.
Proof. intros Hk. unfold stored_segment. by rewrite Hk. Qed.

Lemma retrieve_segment_invalid (id : value) w :
  is_integer id = false -> retrieve_segment id w = (Throw AssertionError, w).
Proof.
  intros Hid. unfold retrieve_segment.
  rewrite (bind_throw _ _ w AssertionError w); [done|].
  apply pre_fails. cbn. by rewrite Hid.
Qed.

(** X1: [exists-segment?] answers true exactly for the id of a stored Segment
    whose [is_active] is true (an inactive or unknown id gives false), never
    changes the world, and throws an [AssertionError] on an id that is not an
    integer. *)
Theorem exists_segment_spec (id : value) w :
  (is_integer id = false ->
   exists_segment id w = (Throw AssertionError, w)) /\
  (forall k : Z,
     id = VInt k ->
     exists b : bool,
       exists_segment id w = (Ok b, w) /\
       (b = true <->
        exists r : row,
          rows (segment_table w) !! k = Some r /\
          r !! "is_active" = Some (VBool true))).
Proof.
  split.
  - intros Hid. unfold exists_segment.
    rewrite (bind_throw _ _ w AssertionError w); [done|].
    apply pre_fails. cbn. by rewrite Hid.
  - intros k ->. rewrite exists_segment_run. eexists. split; [reflexivity|].
    destruct (rows (segment_table w) !! k) as [r|].
    + rewrite column_is_true by done. split; [by eauto|].
      by intros (r' & [= <-] & Hr).
    + split; [done|]. by intros (r' & ? & _).
Qed.

(** X2: [retrieve-segment] only reads: whatever the id, the world is left as
    it was. An id that is not an integer throws an [AssertionError]; an
    integer id under which nothing is stored yields [nil], not an exception; a
    stored Segment is returned whatever its [is_active], with its id and its
    creator hydrated. *)
Theorem retrieve_segment_spec (id : value) w :
  (retrieve_segment id w).2 = w /\
  (is_integer id = false ->
   retrieve_segment id w = (Throw AssertionError, w)) /\
  (forall k : Z,
     id = VInt k ->
     rows (segment_table w) !! k = None ->
     retrieve_segment id w = (Ok VNil, w)) /\
  (forall (k : Z) (r : row),
     id = VInt k ->
     rows (segment_table w) !! k = Some r ->
     exists seg,
       retrieve_segment id w = (Ok seg, w) /\
       get seg "id" = VInt k /\
       get seg "is_active" = default VNil (r !! "is_active") /\
       get seg "creator" = user_by_id w (default VNil (r !! "creator_id"))).
Proof.
  split; [|split; [|split]].
  - destruct (is_integer id) eqn:Hid.
    + destruct id; try done. by rewrite retrieve_segment_run.
    + by rewrite retrieve_segment_invalid.
  - apply retrieve_segment_invalid.
  - intros k -> Hk. by rewrite retrieve_segment_run, stored_segment_missing.
  - intros k r -> Hk. rewrite retrieve_segment_run.
    rewrite (stored_segment_found _ _ _ Hk). eexists. split; [reflexivity|].
    rewrite !segment_view_get by done. rewrite segment_view_creator.
    by row_lookup.
Qed.

(** X3: After [delete-segment] on a stored Segment, whoever the acting user,
    [retrieve-segment] still finds the record, now with [is_active] false, and
    [exists-segment?] answers false. *)
Theorem delete_then_read (k : Z) (r : row) (user_id : value) w :
  rows (segment_table w) !! k = Some r ->
  let w' := (delete_segment (VInt k) user_id w).2 in
  (exists seg,
     retrieve_segment (VInt k) w' = (Ok seg, w') /\
     get seg "id" = VInt k /\
     get seg "is_active" = VBool false) /\
  exists_segment (VInt k) w' = (Ok false, w').
Proof.
  intros Hk w'. subst w'. rewrite delete_segment_valid. cbn [snd].
  set (kvs := <["is_active" := VBool false]> (∅ : row)).
  set (w1 := after_upd w k kvs).
  set (w2 := set_events _ w1).
  assert (Hk2 : rows (segment_table w2) !! k = Some (updated_row w kvs r))
    by (by apply after_upd_found).
  assert (Hflag : updated_row w kvs r !! "is_active" = Some (VBool false)).
  { by rewrite (updated_row_written _ _ _ _ (VBool false)). }
  split.
  - rewrite retrieve_segment_run, (stored_segment_found _ _ _ Hk2).
    eexists. split; [reflexivity|].
    rewrite !segment_view_get by done. row_lookup. by rewrite Hflag.
  - rewrite exists_segment_run, Hk2. unfold column_is. by rewrite Hflag.
Qed.

(** X4: On an integer id under which nothing is stored, [delete-segment] and a
    valid [update-segment] do not fail: they write no row, return [nil], and
    still publish their event, whose payload holds nothing but the actor (and
    the revision message). *)
Theorem mutation_of_missing_id (k : Z) w :
  rows (segment_table w) !! k = None ->
  (forall user_id,
     delete_segment (VInt k) user_id w =
     (Ok VNil,
      set_events
        (events w ++
         [("segment-delete"%string, VMap {["actor_id" := user_id]})]) w)) /\
  (forall segment_map user_id,
     get segment_map "id" = VInt k ->
     is_string (get segment_map "name") = true ->
     is_map (get segment_map "definition") = true ->
     is_integer user_id = true ->
     is_string (get segment_map "revision_message") = true ->
     update_segment segment_map user_id w =
     (Ok VNil,
      set_events
        (events w ++
         [("segment-update"%string,
           VMap (<["revision_message" := get segment_map "revision_message"]>
                   {["actor_id" := user_id]}))]) w)).
Proof.
  intros Hk. split.
  - intros user_id. rewrite delete_segment_valid.
    by rewrite after_upd_missing, stored_segment_missing.
  - intros segment_map user_id Hid Hn Hd Hu Hr.
    rewrite (update_segment_valid _ _ k) by done.
    by rewrite after_upd_missing, stored_segment_missing.
Qed.

Lemma update_segment_world (segment_map user_id : value) w :
  (update_segment segment_map user_id w).2 = w \/
  exists (k : Z) l,
    get segment_map "id" = VInt k /\
    (update_segment segment_map user_id w).2
    = set_events l (after_upd w k (update_columns segment_map)).
Proof.
  destruct (forallb (fun b => b)
              [is_integer (get segment_map "id");
               is_string (get segment_map "name");
               is_map (get segment_map "definition"); is_integer user_id;
               is_string (get segment_map "revision_message")]) eqn:Hpre.
  - cbn in Hpre. rewrite andb_true_r in Hpre.
    apply andb_prop in Hpre as [Hi Hpre]. apply andb_prop in Hpre as [Hn Hpre].
    apply andb_prop in Hpre as [Hd Hpre]. apply andb_prop in Hpre as [Hu Hr].
    destruct (get segment_map "id") as [| |k| | | | |] eqn:Hid; try done.
    right. exists k. eexists. split; [done|].
    by rewrite (update_segment_valid _ _ k).
  - left. by rewrite update_segment_invalid.
Qed.

Lemma delete_segment_world (id user_id : value) w :
  (delete_segment id user_id w).2 = w \/
  exists (k : Z) l,
    id = VInt k /\
    (delete_segment id user_id w).2
    = set_events l (after_upd w k (<["is_active" := VBool false]> ∅)).
Proof.
  destruct (is_integer id) eqn:Hid.
  - destruct id as [| |k| | | | |]; try done.
    right. exists k. eexists. split; [done|]. by rewrite delete_segment_valid.
  - left. by rewrite delete_segment_invalid.
Qed.

(** X6: [update-segment] and [delete-segment] never add or remove a Segment
    row -- in particular [delete-segment] never removes the row it marks --
    and leave every row other than the one they are called on exactly as it
    was. *)
Theorem update_delete_keep_rows (j : Z) w :
  (forall segment_map user_id,
     let w' := (update_segment segment_map user_id w).2 in
     (is_Some (rows (segment_table w') !! j)
      <-> is_Some (rows (segment_table w) !! j)) /\
     (get segment_map "id" <> VInt j ->
      rows (segment_table w') !! j = rows (segment_table w) !! j)) /\
  (forall id user_id,
     let w' := (delete_segment id user_id w).2 in
     (is_Some (rows (segment_table w') !! j)
      <-> is_Some (rows (segment_table w) !! j)) /\
     (id <> VInt j ->
      rows (segment_table w') !! j = rows (segment_table w) !! j)).
Proof.
  assert (Hupd : forall (k : Z) (kvs : row) l,
             let w' := set_events l (after_upd w k kvs) in
             (is_Some (rows (segment_table w') !! j)
              <-> is_Some (rows (segment_table w) !! j)) /\
             (k <> j ->
              rows (segment_table w') !! j = rows (segment_table w) !! j)).
  { intros k kvs l w'. subst w'. cbn [set_events segment_table].
    split; [|intros Hne; by apply after_upd_other].
    destruct (decide (j = k)) as [->|Hne]; [|by rewrite after_upd_other].
    destruct (rows (segment_table w) !! k) as [r|] eqn:Hk.
    - rewrite (after_upd_found _ _ _ _ Hk). split; by eauto.
    - by rewrite after_upd_missing, Hk. }
  split.
  - intros segment_map user_id w'. subst w'.
    destruct (update_segment_world segment_map user_id w)
      as [->|(k & l & Hid & ->)]; [done|].
    destruct (Hupd k (update_columns segment_map) l) as [Hdom Hother].
    split; [done|]. intros Hne. apply Hother. congruence.
  - intros id user_id w'. subst w'.
    destruct (delete_segment_world id user_id w)
      as [->|(k & l & -> & ->)]; [done|].
    destruct (Hupd k (<["is_active" := VBool false]> ∅) l) as [Hdom Hother].
    split; [done|]. intros Hne. apply Hother. congruence.
Qed.

Lemma delete_segment_stored (k : Z) (r : row) (user_id : value) w :
  rows (segment_table w) !! k = Some r ->
  rows (segment_table (delete_segment (VInt k) user_id w).2) !! k
  = Some (updated_row w (<["is_active" := VBool false]> ∅) r).
Proof.
  intros Hk. rewrite delete_segment_valid. cbn [snd set_events segment_table].
  by apply after_upd_found.
Qed.

(** X7: [delete-segment] on a stored Segment is a soft delete: the row stays,
    its [is_active] becomes false, and every other column but the [updated_at]
    stamp keeps its value. *)
Theorem delete_segment_frame (k : Z) (r : row) (user_id : value) w :
  rows (segment_table w) !! k = Some r ->
  exists r',
    rows (segment_table (delete_segment (VInt k) user_id w).2) !! k = Some r' /\
    r' !! "is_active" = Some (VBool false) /\
    forall f : string,
      f <> "is_active"%string -> f <> "updated_at"%string ->
      r' !! f = r !! f.
Proof.
  intros Hk. eexists. split; [by apply delete_segment_stored|]. split.
  - by rewrite (updated_row_written _ _ _ _ (VBool false)).
  - intros f Hf Hu. apply updated_row_frame; [|done].
    by rewrite lookup_insert_ne.
Qed.

Lemma elem_of_segment_ids w (n : Z) (flag : option bool) (k : Z) :
  k ∈ segment_ids w n flag <->
  exists r : row,
    rows (segment_table w) !! k = Some r /\ wanted n flag r = true.
Proof.
  unfold segment_ids. rewrite list_elem_of_fmap. split.
  - intros ([k' r] & -> & Hin). apply list_elem_of_filter in Hin as [Hw Hin].
    apply elem_of_map_to_list in Hin. by exists r.
  - intros (r & Hk & Hw). exists (k, r). split; [done|].
    apply list_elem_of_filter. split; [done|]. by apply elem_of_map_to_list.
Qed.

Lemma stored_segment_id w (k : Z) (r : row) :
  rows (segment_table w) !! k = Some r ->
  get (stored_segment w k) "id" = VInt k.
Proof.
  intros Hk. rewrite (stored_segment_found _ _ _ Hk).
  rewrite segment_view_get by done. by row_lookup.
Qed.

(** The records of a listing, by id: [retrieve-segments] returns a record
    with id [k] exactly when a Segment of the table with the requested flag
    is stored under [k]. *)
Lemma listing_ids w (n : Z) (state : string) (flag : option bool) :
  returns_listing w n state flag ->
  exists l,
    retrieve_segments (VInt n) (VKw state) w = (Ok l, w) /\
    forall k : Z,
      (exists seg, seg ∈ l /\ get seg "id" = VInt k) <->
      exists r : row,
        rows (segment_table w) !! k = Some r /\ wanted n flag r = true.
Proof.
  intros (l & Hrun & Hperm & _). exists l. split; [done|]. intros k.
  rewrite <- elem_of_segment_ids. split.
  - intros (seg & Hin & Hid). rewrite Hperm in Hin.
    apply list_elem_of_fmap in Hin as (j & -> & Hj).
    pose proof Hj as Hj'. apply elem_of_segment_ids in Hj' as (r & Hr & _).
    rewrite (stored_segment_id _ _ _ Hr) in Hid. by injection Hid as <-.
  - intros Hk. exists (stored_segment w k). split.
    + rewrite Hperm. apply list_elem_of_fmap. by exists k.
    + apply elem_of_segment_ids in Hk as (r & Hr & _).
      by apply (stored_segment_id _ _ r).
Qed.

(** X8: After [delete-segment] on a stored Segment of table [n], the default
    ([:active]) listing of the table holds no record with its id, while the
    [:deleted] and the [:all] listings each hold one. *)
Theorem listing_after_delete (k n : Z) (r : row) (user_id : value) w :
  rows (segment_table w) !! k = Some r ->
  r !! "table_id" = Some (VInt n) ->
  let w' := (delete_segment (VInt k) user_id w).2 in
  (exists l,
     retrieve_segments_default (VInt n) w' = (Ok l, w') /\
     forall seg, seg ∈ l -> get seg "id" <> VInt k) /\
  (exists l seg,
     retrieve_segments (VInt n) (VKw "deleted") w' = (Ok l, w') /\
     seg ∈ l /\ get seg "id" = VInt k /\ get seg "is_active" = VBool false) /\
  (exists l seg,
     retrieve_segments (VInt n) (VKw "all") w' = (Ok l, w') /\
     seg ∈ l /\ get seg "id" = VInt k /\ get seg "is_active" = VBool false).
Proof.
  intros Hk Ht w'.
  set (r' := updated_row w (<["is_active" := VBool false]> ∅) r).
  assert (Hk' : rows (segment_table w') !! k = Some r')
    by (by apply delete_segment_stored).
  assert (Hflag : r' !! "is_active" = Some (VBool false)).
  { subst r'. by rewrite (updated_row_written _ _ _ _ (VBool false)). }
  assert (Ht' : r' !! "table_id" = Some (VInt n)).
  { subst r'. by rewrite updated_row_frame. }
  assert (Hview : get (stored_segment w' k) "is_active" = VBool false).
  { rewrite (stored_segment_found _ _ _ Hk').
    rewrite segment_view_get by done. row_lookup. by rewrite Hflag. }
  split; [|split].
  - destruct (listing_ids w' n "active" (Some true)) as (l & Hrun & Hids);
      [by apply retrieve_segments_listing|].
    exists l. split; [done|]. intros seg Hin Hid.
    destruct (proj1 (Hids k)) as (r2 & Hr2 & Hw); [by eauto|].
    rewrite Hk' in Hr2. injection Hr2 as <-.
    apply wanted_true in Hw as [_ Hact]. rewrite Hflag in Hact. done.
  - destruct (retrieve_segments_listing n "deleted" (Some false) w' eq_refl)
      as (l & Hrun & Hperm & _).
    exists l, (stored_segment w' k). split; [done|]. split; [|split; [|done]].
    + rewrite Hperm. apply list_elem_of_fmap. exists k. split; [done|].
      apply elem_of_segment_ids. exists r'. split; [done|].
      by apply wanted_true.
    + by apply (stored_segment_id _ _ r').
  - destruct (retrieve_segments_listing n "all" None w' eq_refl)
      as (l & Hrun & Hperm & _).
    exists l, (stored_segment w' k). split; [done|]. split; [|split; [|done]].
    + rewrite Hperm. apply list_elem_of_fmap. exists k. split; [done|].
      apply elem_of_segment_ids. exists r'. split; [done|].
      by apply wanted_true.
    + by apply (stored_segment_id _ _ r').
Qed.

(** X9: [retrieve-segments] only reads: whatever its arguments, the world is
    left as it was. It throws an [AssertionError] when the table id is not an
    integer or the state is not a keyword -- the string "active" is refused --
    and otherwise returns a list. *)
Theorem retrieve_segments_validation (table_id state : value) w :
  (retrieve_segments table_id state w).2 = w /\
  (is_integer table_id && is_keyword state = false ->
   retrieve_segments table_id state w = (Throw AssertionError, w)) /\
  (is_integer table_id && is_keyword state = true ->
   exists l, retrieve_segments table_id state w = (Ok l, w)).
Proof.
  assert (Hinv : is_integer table_id && is_keyword state = false ->
                 retrieve_segments table_id state w
                 = (Throw AssertionError, w)).
  { intros Hpre. unfold retrieve_segments.
    rewrite (bind_throw _ _ w AssertionError w); [done|].
    apply pre_fails. cbn. by rewrite andb_true_r. }
  assert (Hval : is_integer table_id && is_keyword state = true ->
                 exists l, retrieve_segments table_id state w = (Ok l, w)).
  { intros Hpre. apply andb_prop in Hpre as [Ht Hs].
    destruct table_id; try done. destruct state; try done.
    rewrite retrieve_segments_run. by eexists. }
  split; [|by split].
  destruct (is_integer table_id && is_keyword state) eqn:Hpre.
  - destruct (Hval eq_refl) as [l ->]. done.
  - by rewrite Hinv.
Qed.

Lemma segment_view_world w1 w2 (r : row) :
  user_table w1 = user_table w2 -> segment_view w1 r = segment_view w2 r.
Proof.
  intros Hu. rewrite !segment_view_unfold. do 2 f_equal.
  unfold user_by_id. by rewrite Hu.
Qed.

(** X10: Calling [update-segment] twice with the same valid arguments on a
    stored Segment publishes two events but leaves the row as the first call
    left it, but for the [updated_at] stamp; the two calls return records that
    agree on the columns of the row other than [updated_at]. *)
Theorem update_segment_twice (segment_map user_id : value) (k : Z) (r : row) w :
  rows (segment_table w) !! k = Some r ->
  get segment_map "id" = VInt k ->
  is_string (get segment_map "name") = true ->
  is_map (get segment_map "definition") = true ->
  is_integer user_id = true ->
  is_string (get segment_map "revision_message") = true ->
  exists seg1 w1 seg2 w2 r1 r2,
    update_segment segment_map user_id w = (Ok seg1, w1) /\
    update_segment segment_map user_id w1 = (Ok seg2, w2) /\
    rows (segment_table w1) !! k = Some r1 /\
    rows (segment_table w2) !! k = Some r2 /\
    (forall f : string, f <> "updated_at"%string -> r2 !! f = r1 !! f) /\
    (forall f : string,
       f <> "updated_at"%string -> f <> "creator"%string ->
       f <> "description"%string -> f <> "definition"%string ->
       get seg2 f = get seg1 f) /\
    get seg2 "description" = get seg1 "description" /\
    get seg2 "definition" = get seg1 "definition" /\
    get seg2 "creator" = get seg1 "creator" /\
    length (events w2) = S (S (length (events w))).
Proof.
  intros Hk Hid Hn Hd Hu Hr.
  set (cols := update_columns segment_map).
  set (w1 := (update_segment segment_map user_id w).2).
  assert (Hrun1 : update_segment segment_map user_id w
                  = (Ok (stored_segment w1 k), w1)).
  { subst w1. by rewrite (update_segment_valid _ _ k). }
  set (r1 := updated_row w cols r).
  assert (Hk1 : rows (segment_table w1) !! k = Some r1).
  { subst w1. rewrite (update_segment_valid _ _ k) by done.
    by apply after_upd_found. }
  set (w2 := (update_segment segment_map user_id w1).2).
  assert (Hrun2 : update_segment segment_map user_id w1
                  = (Ok (stored_segment w2 k), w2)).
  { subst w2. by rewrite (update_segment_valid _ _ k). }
  set (r2 := updated_row w1 cols r1).
  assert (Hk2 : rows (segment_table w2) !! k = Some r2).
  { subst w2. rewrite (update_segment_valid _ _ k) by done.
    by apply after_upd_found. }
  assert (Hrows : forall f : string,
             f <> "updated_at"%string -> r2 !! f = r1 !! f).
  { intros f Hf. destruct (cols !! f) as [v|] eqn:Hc.
    - subst r2 r1. by rewrite !(updated_row_written _ _ _ _ v).
    - subst r2. by apply updated_row_frame. }
  assert (Husers : user_table w2 = user_table w1).
  { subst w2. rewrite (update_segment_valid _ _ k) by done.
    apply after_upd_tables. }
  exists (stored_segment w1 k), w1, (stored_segment w2 k), w2, r1, r2.
  do 5 (split; [done|]).
  rewrite (stored_segment_found _ _ _ Hk1), (stored_segment_found _ _ _ Hk2).
  split; [|split; [|split; [|split]]].
  - intros f Hf Hc Hde Hdf. rewrite !segment_view_get by done.
    destruct (decide (f = "id"%string)) as [->|Hne]; [by row_lookup|].
    rewrite !lookup_insert_ne by done. by rewrite Hrows.
  - rewrite !segment_view_description. row_lookup. by rewrite Hrows.
  - rewrite !segment_view_definition. row_lookup. by rewrite Hrows.
  - rewrite !segment_view_creator. row_lookup. rewrite Hrows by done.
    unfold user_by_id. by rewrite Husers.
  - subst w2 w1. rewrite !(update_segment_valid _ _ k) by done.
    repeat (progress cbn [snd events set_events] || rewrite after_upd_events).
    rewrite !length_app. cbn. lia.
Qed.

(** X11: What a valid [update-segment] writes on a stored Segment can be read
    back: [retrieve-segment] then returns the record the update returned, with
    the name, the description (nil or a string) and the definition (one that
    the JSON codec reads back as written) that were passed. *)
Theorem update_then_retrieve (segment_map user_id : value) (k : Z) (r : row) w :
  rows (segment_table w) !! k = Some r ->
  get segment_map "id" = VInt k ->
  is_string (get segment_map "name") = true ->
  is_map (get segment_map "definition") = true ->
  is_integer user_id = true ->
  is_string (get segment_map "revision_message") = true ->
  get segment_map "description" = VNil \/
    is_string (get segment_map "description") = true ->
  parse_string (generate_string (get segment_map "definition"))
    = get segment_map "definition" ->
  exists seg w',
    update_segment segment_map user_id w = (Ok seg, w') /\
    retrieve_segment (VInt k) w' = (Ok seg, w') /\
    get seg "name" = get segment_map "name" /\
    get seg "description" = get segment_map "description" /\
    get seg "definition" = get segment_map "definition".
Proof.
  intros Hk Hid Hn Hd Hu Hr Hdesc Hjson.
  rewrite (update_segment_valid _ _ k) by done.
  set (cols := update_columns segment_map).
  set (w1 := after_upd w k cols). set (w2 := set_events _ w1).
  assert (Hk2 : rows (segment_table w2) !! k = Some (updated_row w cols r))
    by (by apply after_upd_found).
  exists (stored_segment w1 k), w2. split; [done|].
  rewrite retrieve_segment_run. split; [done|].
  change (stored_segment w1 k) with (stored_segment w2 k).
  rewrite (stored_segment_found _ _ _ Hk2).
  split; [|split].
  - rewrite segment_view_get by done. row_lookup.
    by rewrite (updated_row_written _ _ _ _ (get segment_map "name")).
  - rewrite segment_view_description. row_lookup.
    rewrite (updated_row_written _ _ _ _ (get segment_map "description"))
      by done.
    cbn. destruct Hdesc as [->|Hs]; [done|].
    by destruct (get segment_map "description").
  - rewrite segment_view_definition. row_lookup.
    rewrite (updated_row_written _ _ _ _ (get segment_map "definition"))
      by done.
    cbn. unfold json_in, json_out. done.
Qed.


Lemma created_row_lookup
    (table_id name description creator_id definition : value) w :
  let r := created_row w table_id name description creator_id definition in
  r !! "table_id" = Some table_id /\
  r !! "creator_id" = Some creator_id /\
  r !! "is_active" = Some (VBool true).
Proof.
  cbn. unfold created_row, stamp_insert, types_in, timestamped.
  by row_lookup.
Qed.

(** X13: Two valid [create-segment] calls in a row give the two Segments
    consecutive, hence distinct, ids, and the second call leaves the first
    Segment as it was: [retrieve-segment] of the first id still returns the
    record the first call returned. *)
Theorem create_segment_twice
    (table_id1 name1 description1 creator_id1 definition1 : value)
    (table_id2 name2 description2 creator_id2 definition2 : value) w :
  is_integer table_id1 && is_string name1 && is_integer creator_id1
    && is_map definition1 = true ->
  is_integer table_id2 && is_string name2 && is_integer creator_id2
    && is_map definition2 = true ->
  exists seg1 w1 seg2 w2 (k : Z),
    create_segment table_id1 name1 description1 creator_id1 definition1 w
      = (Ok seg1, w1) /\
    create_segment table_id2 name2 description2 creator_id2 definition2 w1
      = (Ok seg2, w2) /\
    get seg1 "id" = VInt k /\
    get seg2 "id" = VInt (k + 1) /\
    retrieve_segment (VInt k) w2 = (Ok seg1, w2).
Proof.
  intros Hpre1 Hpre2.
  apply andb_prop in Hpre1 as [Hpre1 Hd1].
  apply andb_prop in Hpre1 as [Hpre1 Hc1].
  apply andb_prop in Hpre1 as [Ht1 Hn1].
  apply andb_prop in Hpre2 as [Hpre2 Hd2].
  apply andb_prop in Hpre2 as [Hpre2 Hc2].
  apply andb_prop in Hpre2 as [Ht2 Hn2].
  set (k := next_id (segment_table w)).
  set (r1 := created_row w table_id1 name1 description1 creator_id1
               definition1).
  pose proof (create_segment_valid table_id1 name1 description1 creator_id1
                definition1 w Ht1 Hn1 Hc1 Hd1) as Hrun1.
  cbn zeta in Hrun1. fold r1 k in Hrun1.
  set (w1 := set_events _ (after_ins w r1)) in Hrun1.
  set (r2 := created_row w1 table_id2 name2 description2 creator_id2
               definition2).
  pose proof (create_segment_valid table_id2 name2 description2 creator_id2
                definition2 w1 Ht2 Hn2 Hc2 Hd2) as Hrun2.
  cbn zeta in Hrun2. fold r2 in Hrun2.
  set (w2 := set_events _ (after_ins w1 r2)) in Hrun2.
  assert (Hnext : next_id (segment_table w1) = k + 1) by done.
  rewrite Hnext in Hrun2.
  assert (Hk2 : rows (segment_table w2) !! k = Some r1).
  { subst w2 w1. unfold after_ins.
    cbn [set_events set_clock set_table segment_table rows next_id].
    rewrite lookup_insert_ne by (fold k; lia). by rewrite lookup_insert_eq. }
  eexists _, _, _, _, k. split; [exact Hrun1|]. split; [exact Hrun2|].
  change (hydrated ?w (post_select Segment (types_out Segment ?r)) "creator")
    with (segment_view w r).
  split; [rewrite segment_view_get by done; by row_lookup|].
  split; [rewrite segment_view_get by done; by row_lookup|].
  rewrite retrieve_segment_run, (stored_segment_found _ _ _ Hk2).
  reflexivity.
Qed.

(** X14: A Segment that a valid [create-segment] returns is there for the
    readers: [exists-segment?] of its id answers true, and the default
    ([:active]) listing of its table contains the returned record. *)
Theorem create_then_listed
    (table_id name description creator_id definition : value) w :
  is_integer table_id && is_string name && is_integer creator_id
    && is_map definition = true ->
  exists seg w' (k : Z) l,
    create_segment table_id name description creator_id definition w
      = (Ok seg, w') /\
    get seg "id" = VInt k /\
    exists_segment (VInt k) w' = (Ok true, w') /\
    retrieve_segments_default table_id w' = (Ok l, w') /\
    seg ∈ l.
Proof.
  intros Hpre.
  apply andb_prop in Hpre as [Hpre Hd]. apply andb_prop in Hpre as [Hpre Hc].
  apply andb_prop in Hpre as [Ht Hn].
  set (k := next_id (segment_table w)).
  set (r := created_row w table_id name description creator_id definition).
  rewrite create_segment_valid by done. fold r k.
  set (w' := set_events _ (after_ins w r)).
  change (hydrated w' (post_select Segment (types_out Segment ?r)) "creator")
    with (segment_view w' r).
  assert (Hk : rows (segment_table w') !! k = Some r).
  { subst w'. unfold after_ins.
    cbn [set_events set_clock set_table segment_table rows].
    by rewrite lookup_insert_eq. }
  destruct (created_row_lookup table_id name description creator_id
              definition w)
    as (Hrt & _ & Hra). fold r in Hrt, Hra.
  destruct table_id as [| |n| | | | |]; try done.
  destruct (retrieve_segments_listing n "active" (Some true) w' eq_refl)
    as (l & Hrun & Hperm & _).
  exists (segment_view w' (<["id" := VInt k]> r)), w', k, l.
  split; [done|].
  split; [rewrite segment_view_get by done; by row_lookup|].
  split.
  { rewrite exists_segment_run, Hk. unfold column_is. by rewrite Hra. }
  split; [done|].
  rewrite Hperm, <- (stored_segment_found _ _ _ Hk).
  apply list_elem_of_fmap. exists k. split; [done|].
  apply elem_of_segment_ids. exists r. split; [done|]. by apply wanted_true.
Qed.

Lemma serialize_instance_lookup (m : row) (f : string) (v : value) :
  filter_vals (fun v => negb (is_delay v))
    (delete "updated_at" (delete "created_at" m)) !! f = Some v <->
  m !! f = Some v /\ f <> "created_at"%string /\
  f <> "updated_at"%string /\ is_delay v = false.
Proof.
  unfold filter_vals.
  rewrite map_lookup_filter_Some, !lookup_delete_Some. cbn.
  rewrite negb_true_iff. intuition congruence.
Qed.

(** X15: [serialize-instance] is idempotent: a snapshot it produced -- from a
    record or from [nil], which gives the empty map -- serializes to itself.
    On anything that is neither a map nor [nil] it throws. *)
Theorem serialize_instance_idempotent (instance : value) :
  match serialize_instance instance with
  | Ok snapshot =>
      (is_map instance = true \/ instance = VNil) /\
      serialize_instance snapshot = Ok snapshot
  | Throw e =>
      is_map instance = false /\ instance <> VNil /\ e = ClassCastException
  end.
Proof.
  assert (Hid : forall m : row,
             filter_vals (fun v => negb (is_delay v))
               (delete "updated_at" (delete "created_at"
                  (filter_vals (fun v => negb (is_delay v))
                     (delete "updated_at" (delete "created_at" m)))))
             = filter_vals (fun v => negb (is_delay v))
                 (delete "updated_at" (delete "created_at" m))).
  { intros m. apply map_eq. intros f. apply option_eq. intros v.
    rewrite !serialize_instance_lookup. tauto. }
  destruct instance; cbn; try done.
  - split; [by right|]. reflexivity.
  - split; [by left|]. do 2 f_equal. apply Hid.
Qed.

(** X16: The payload of the [segment-create] event and the record
    [create-segment] returns differ by the creator only: in the payload it is
    still a delay, which [serialize-instance] drops; in the returned record it
    is resolved, and its snapshot carries it. On every other key the two
    snapshots agree. *)
Theorem create_segment_snapshots
    (table_id name description creator_id definition : value) w :
  is_integer table_id && is_string name && is_integer creator_id
    && is_map definition = true ->
  exists seg w' payload (s s' : row),
    create_segment table_id name description creator_id definition w
      = (Ok seg, w') /\
    events w' = events w ++ [("segment-create"%string, payload)] /\
    is_delay (get payload "creator") = true /\
    serialize_instance payload = Ok (VMap s) /\
    serialize_instance seg = Ok (VMap s') /\
    s !! "creator" = None /\
    s' !! "creator" = Some (user_by_id w creator_id) /\
    forall f : string, f <> "creator"%string -> s' !! f = s !! f.
Proof.
  intros Hpre.
  apply andb_prop in Hpre as [Hpre Hd]. apply andb_prop in Hpre as [Hpre Hc].
  apply andb_prop in Hpre as [Ht Hn].
  rewrite create_segment_valid by done.
  set (k := next_id (segment_table w)).
  set (r := created_row w table_id name description creator_id definition).
  set (w' := set_events _ (after_ins w r)).
  destruct (created_row_lookup table_id name description creator_id
              definition w)
    as (_ & Hrc & _). fold r in Hrc.
  set (r' := alter json_out "definition" (<["id" := VInt k]> r)).
  set (body := <["description" :=
                   jdbc_clob_to_str (default VNil (r' !! "description"))]>
                 (<["creator" := VDelay (default VNil (r' !! "creator_id"))]>
                    r')).
  assert (Hp : post_select Segment (types_out Segment (<["id" := VInt k]> r))
               = VMap body) by done.
  assert (Hcid : default VNil (r' !! "creator_id") = creator_id).
  { subst r'. row_lookup. by rewrite Hrc. }
  assert (Hs : hydrated w' (VMap body) "creator"
               = VMap (<["creator" := user_by_id w creator_id]> body)).
  { unfold hydrated, get, body. row_lookup. unfold assoc. by rewrite Hcid. }
  rewrite Hp, Hs.
  eexists _, _, _, _, _. split; [reflexivity|]. split; [reflexivity|].
  split; [unfold get, body; by row_lookup|].
  split; [reflexivity|]. split; [reflexivity|].
  split; [|split].
  - apply eq_None_not_Some. intros [v Hv].
    apply serialize_instance_lookup in Hv as (Hv & _ & _ & Hdl).
    unfold body in Hv. rewrite lookup_insert_ne, lookup_insert_eq in Hv by done.
    by injection Hv as <-.
  - apply serialize_instance_lookup. rewrite lookup_insert_eq.
    split; [done|]. split; [done|]. split; [done|].
    apply user_by_id_not_delay.
  - intros f Hf. apply option_eq. intros v.
    rewrite !serialize_instance_lookup. by rewrite lookup_insert_ne.
Qed.

End MoreProperties.

(** ** Properties of the chart type sidebar *)

Module ChartTypeSidebarProperties.
Import ChartTypeSidebar.
Local Open Scope nat_scope.

Lemma div4_iff (i k : nat) : i / 4 = k <-> 4 * k <= i < 4 * k + 4.
Proof.
  pose proof (Nat.div_mod_eq i 4) as Hdm.
  pose proof (Nat.mod_upper_bound i 4) as Hm.
  split.
  - intros <-. lia.
  - intros Hk. symmetry. apply (Nat.div_unique i 4 k (i - 4 * k)); lia.
Qed.

Lemma rows_of_four (n k : nat) : k < (n + 3) / 4 <-> 4 * k < n.
Proof.
  pose proof (Nat.div_mod_eq (n + 3) 4) as Hdm.
  pose proof (Nat.mod_upper_bound (n + 3) 4) as Hm.
  lia.
Qed.

Lemma groupBy_from_lookup {A} (iteratee : A -> nat -> nat) (index : nat)
    (values : list A) (result : gmap nat (list A)) (key : nat) :
  groupBy_from iteratee index values result !! key =
  match result !! key, picked iteratee key index values with
  | None, [] => None
  | o, p => Some (default [] o ++ p)
  end.
Proof.
  revert index result.
  induction values as [|value rest IH]; intros index result.
  - cbn. destruct (result !! key) as [y|]; [|done]. cbn. by rewrite app_nil_r.
  - cbn [groupBy_from picked]. rewrite IH. unfold push.
    destruct (decide (iteratee value index = key)) as [->|Hne].
    + rewrite lookup_insert_eq. cbn. rewrite <- app_assoc. cbn.
      by destruct (result !! _).
    + rewrite lookup_insert_ne by done. done.
Qed.

Lemma picked_by_four {A} (key index : nat) (values : list A) :
  picked (fun _ i => i / 4) key index values =
  take (4 * key + 4 - max index (4 * key)) (drop (4 * key - index) values).
Proof.
  revert index. induction values as [|value rest IH]; intros index.
  - by rewrite drop_nil, take_nil.
  - cbn [picked]. rewrite IH.
    destruct (decide (index / 4 = key)) as [Hk|Hk].
    + apply div4_iff in Hk.
      replace (4 * key - index) with 0 by lia.
      replace (4 * key - S index) with 0 by lia. rewrite !drop_0.
      replace (4 * key + 4 - max index (4 * key))
        with (S (4 * key + 4 - max (S index) (4 * key))) by lia.
      done.
    + rewrite div4_iff in Hk.
      destruct (decide (index < 4 * key)) as [Hlt|Hge].
      * replace (4 * key - index) with (S (4 * key - S index)) by lia.
        replace (max index (4 * key)) with (4 * key) by lia.
        replace (max (S index) (4 * key)) with (4 * key) by lia.
        done.
      * replace (4 * key + 4 - max index (4 * key)) with 0 by lia.
        replace (4 * key + 4 - max (S index) (4 * key)) with 0 by lia.
        by rewrite !take_0.
Qed.

Lemma groupBy_four_lookup {A} (values : list A) (key : nat) :
  groupBy values (fun _ i => i / 4) !! key =
  if decide (4 * key < length values)
  then Some (take 4 (drop (4 * key) values))
  else None.
Proof.
  unfold groupBy. rewrite groupBy_from_lookup, lookup_empty, picked_by_four.
  replace (4 * key + 4 - max 0 (4 * key)) with 4 by lia.
  replace (4 * key - 0) with (4 * key) by lia.
  case_decide as Hlen.
  - destruct (take 4 (drop (4 * key) values)) as [|x p] eqn:Hp; [|done].
    apply (f_equal length) in Hp. rewrite length_take, length_drop in Hp.
    cbn [length] in Hp. lia.
  - by rewrite drop_ge, take_nil by lia.
Qed.

Lemma StronglySorted_seq (j n : nat) : StronglySorted (≤) (seq j n).
Proof.
  revert j. induction n as [|n IH]; intros j; [constructor|].
  cbn. constructor; [apply IH|].
  apply Forall_forall. intros x Hx. apply elem_of_seq in Hx. lia.
Qed.

Lemma omap_total {A B} (f : A -> option B) (g : A -> B) (l : list A) :
  (forall x, x ∈ l -> f x = Some (g x)) -> omap f l = g <$> l.
Proof.
  induction l as [|x l IH]; intros Hf; [done|].
  cbn. rewrite (Hf x) by left. cbn. f_equal. apply IH.
  intros y Hy. apply Hf. by right.
Qed.

Lemma concat_rows_of_four {A} (values : list A) (c : nat) :
  concat ((fun key => take 4 (drop (4 * key) values)) <$> seq 0 c)
  = take (4 * c) values.
Proof.
  induction c as [|c IH]; [by rewrite take_0|].
  rewrite seq_S, fmap_app, concat_app, IH. cbn. rewrite app_nil_r.
  rewrite take_take_drop. f_equal. lia.
Qed.

(** [Object.values(_.groupBy(values, (_, index) => Math.floor(index / 4)))]
    cuts the list into consecutive rows of four. *)
Lemma grouped_by_four {A} (values : list A) :
  Object_values (groupBy values (fun _ i => i / 4)) =
  (fun key => take 4 (drop (4 * key) values))
    <$> seq 0 ((length values + 3) / 4).
Proof.
  unfold Object_values.
  assert (Hkeys : merge_sort (≤)
                    (elements (dom (groupBy values (fun _ i => i / 4))))
                  = seq 0 ((length values + 3) / 4)).
  { apply (StronglySorted_unique (≤)).
    - apply StronglySorted_merge_sort; apply _.
    - apply StronglySorted_seq.
    - rewrite merge_sort_Permutation. apply NoDup_Permutation.
      + apply NoDup_elements.
      + apply NoDup_seq.
      + intros key. rewrite elem_of_elements, elem_of_dom, elem_of_seq.
        rewrite groupBy_four_lookup.
        pose proof (rows_of_four (length values) key) as Hrows.
        case_decide.
        * split; [lia|by eauto].
        * split; [by intros [? ?]|lia]. }
  rewrite Hkeys. apply omap_total. intros key Hkey.
  apply elem_of_seq in Hkey. rewrite groupBy_four_lookup.
  rewrite decide_True; [done|]. apply rows_of_four. lia.
Qed.

Section Render.
Context {data : Type}.
Implicit Types visualizations : list (string * @visualization data).

Lemma concat_otherGrouped visualizations :
  concat (otherGrouped visualizations) = other visualizations.
Proof.
  unfold otherGrouped. rewrite grouped_by_four, concat_rows_of_four.
  apply take_ge.
  pose proof (Nat.div_mod_eq (length (other visualizations) + 3) 4).
  pose proof (Nat.mod_upper_bound (length (other visualizations) + 3) 4).
  lia.
Qed.

(** X17: The visualizations outside the fixed layout are laid out in the order
    of the registry, four to a row: row [i] holds the types at positions [4i]
    to [4i+3] of [other], so the rows put end to end give [other] back, no row
    is empty and none has more than four types. *)
Theorem otherGrouped_rows visualizations :
  otherGrouped visualizations =
    (fun i => take 4 (drop (4 * i) (other visualizations)))
      <$> seq 0 ((length (other visualizations) + 3) / 4) /\
  concat (otherGrouped visualizations) = other visualizations /\
  Forall (fun row : list string => 0 < length row <= 4)
         (otherGrouped visualizations).
Proof.
  split; [|split; [apply concat_otherGrouped|]];
    unfold otherGrouped; rewrite grouped_by_four; [done|].
  - apply Forall_fmap, Forall_forall. intros i Hi. cbn.
    apply elem_of_seq in Hi. destruct Hi as [_ Hi]. cbn in Hi.
    apply rows_of_four in Hi.
    rewrite length_take, length_drop. lia.
Qed.

Lemma Map_get_Some visualizations (type : string) (v : visualization) :
  NoDup visualizations.*1 ->
  Map_get visualizations type = Some v <-> (type, v) ∈ visualizations.
Proof.
  intros Hnd. unfold Map_get.
  induction visualizations as [|[t' v'] l IH].
  - cbn. split; [done|]. intros Hin. by apply elem_of_nil in Hin.
  - rewrite fmap_cons in Hnd. apply NoDup_cons in Hnd as [Hnotin Hnd].
    rewrite elem_of_cons. destruct (decide (t' = type)) as [->|Hne].
    + rewrite filter_cons_True by done. cbn. split.
      * intros [= ->]. by left.
      * intros [[= ->]|Hin]; [done|]. exfalso. apply Hnotin.
        apply list_elem_of_fmap. by exists (type, v).
    + rewrite filter_cons_False by done. rewrite (IH Hnd). split; [by right|].
      intros [[= ? ?]|Hin]; [congruence|done].
Qed.

Lemma elem_of_other visualizations (type : string) :
  type ∈ other visualizations <->
  exists v, (type, v) ∈ visualizations /\ hidden v = false /\
            type ∉ FIXED_TYPES.
Proof.
  unfold other. rewrite list_elem_of_fmap. split.
  - intros ([t v] & -> & Hin). apply list_elem_of_filter in Hin as [[? ?] Hin].
    by exists v.
  - intros (v & Hin & Hh & Hf). exists (type, v). split; [done|].
    by apply list_elem_of_filter.
Qed.

Lemma NoDup_other visualizations :
  NoDup visualizations.*1 -> NoDup (other visualizations).
Proof.
  intros Hnd. apply (sublist_NoDup _ _ Hnd). unfold other.
  apply fmap_sublist, sublist_filter.
Qed.

Lemma options_eq visualizations display result :
  options visualizations display result =
  omap (render_type visualizations display result)
       (concat (layout visualizations)).
Proof.
  unfold options, render.
  induction (layout visualizations) as [|row rows IH]; [done|].
  rewrite fmap_cons. cbn [concat]. rewrite !omap_app, IH. f_equal.
  induction row as [|type row IHrow]; [done|]. cbn.
  destruct (render_type visualizations display result type); cbn;
    by rewrite IHrow.
Qed.

Lemma shown_eq visualizations display result :
  shown visualizations display result =
  filter (fun type => is_Some (Map_get visualizations type))
         (concat (layout visualizations)).
Proof.
  unfold shown. rewrite options_eq.
  induction (concat (layout visualizations)) as [|type l IH]; [done|].
  cbn [omap list_omap]. unfold render_type at 1.
  destruct (Map_get visualizations type) as [v|] eqn:Hget.
  - rewrite filter_cons_True by (rewrite Hget; by eexists).
    cbn. by rewrite <- IH.
  - rewrite filter_cons_False by (rewrite Hget; by intros [? ?]). done.
Qed.

Lemma NoDup_FIXED_LAYOUT : NoDup (concat FIXED_LAYOUT).
Proof. compute_done. Qed.

Lemma layout_types visualizations :
  concat (layout visualizations)
  = concat FIXED_LAYOUT ++ other visualizations.
Proof.
  unfold layout. rewrite concat_app. by rewrite concat_otherGrouped.
Qed.

Lemma filter_all {A} (P : A -> Prop) `{!forall x, Decision (P x)}
    (l : list A) :
  (forall x, x ∈ l -> P x) -> filter P l = l.
Proof.
  induction l as [|x l IH]; intros Hall; [done|].
  rewrite filter_cons_True by (apply Hall; left). f_equal.
  apply IH. intros y Hy. apply Hall. by right.
Qed.

Lemma NoDup_filter_eq_length {A} `{!EqDecision A} (d : A) (l : list A) :
  NoDup l -> length (filter (fun x => x = d) l) <= 1.
Proof.
  induction l as [|x l IH]; intros Hnd; [cbn; lia|].
  apply NoDup_cons in Hnd as [Hnotin Hnd].
  destruct (decide (x = d)) as [->|Hne].
  - rewrite filter_cons_True by done.
    destruct (filter (fun x => x = d) l) as [|y ys] eqn:Hf; [cbn; lia|].
    assert (Hin : y ∈ filter (fun x => x = d) l) by (rewrite Hf; left).
    apply list_elem_of_filter in Hin as [-> Hin]. done.
  - rewrite filter_cons_False by done. by apply IH.
Qed.

Lemma shown_types visualizations display result :
  NoDup visualizations.*1 ->
  shown visualizations display result =
  filter (fun type => is_Some (Map_get visualizations type))
         (concat FIXED_LAYOUT) ++ other visualizations.
Proof.
  intros Hnd. rewrite shown_eq, layout_types, filter_app.
  rewrite (filter_all _ (other visualizations)); [done|].
  intros t Ht. apply elem_of_other in Ht as (v & Hin & _).
  exists v. by apply Map_get_Some.
Qed.

Lemma NoDup_shown visualizations display result :
  NoDup visualizations.*1 -> NoDup (shown visualizations display result).
Proof.
  intros Hnd. rewrite shown_types by done.
  apply NoDup_app. split; [apply NoDup_filter, NoDup_FIXED_LAYOUT|].
  split; [|by apply NoDup_other].
  intros t Ht Ho. apply list_elem_of_filter in Ht as [_ Ht].
  apply elem_of_other in Ho as (v & _ & _ & Hnf). apply Hnf.
  unfold FIXED_TYPES. by apply elem_of_list_to_set.
Qed.

(** X18: With a registry that holds each type once, the sidebar shows each
    option at most once, and shows the option of a type exactly when the type
    is registered and either belongs to the fixed layout or is not hidden: a
    hidden visualization of the fixed layout is shown all the same, and a type
    of the fixed layout that is not registered is left out. *)
Theorem options_shown visualizations display result :
  NoDup visualizations.*1 ->
  NoDup (shown visualizations display result) /\
  forall type : string,
    type ∈ shown visualizations display result <->
    exists v,
      (type, v) ∈ visualizations /\
      (type ∈ FIXED_TYPES \/ hidden v = false).
Proof.
  intros Hnd. split; [by apply NoDup_shown|].
  rewrite shown_types by done.
  intros type. rewrite elem_of_app, list_elem_of_filter, elem_of_other.
  split.
  - intros [[[v Hv] Hf]|(v & Hin & Hh & Hnf)].
    + exists v. split; [by apply Map_get_Some|]. left.
      unfold FIXED_TYPES. by apply elem_of_list_to_set.
    + exists v. by eauto.
  - intros (v & Hin & Hcase).
    destruct (decide (type ∈ FIXED_TYPES)) as [Hf|Hnf].
    + left. split; [exists v; by apply Map_get_Some|].
      unfold FIXED_TYPES in Hf. by apply elem_of_list_to_set in Hf.
    + right. exists v. destruct Hcase; [done|]. by eauto.
Qed.

(** X19: With a registry that holds each type once, at most one option is
    rendered as selected, and an option is selected exactly when it is the one
    of the question's current display. *)
Theorem selected_option visualizations display result :
  NoDup visualizations.*1 ->
  (forall o,
     o ∈ options visualizations display result ->
     props_isSelected o = true <-> option_type o = Some display) /\
  length (filter (fun o => props_isSelected o = true)
            (options visualizations display result)) <= 1.
Proof.
  intros Hnd. split.
  - intros o Ho. rewrite options_eq in Ho.
    apply list_elem_of_omap in Ho as (type & _ & Ho).
    unfold render_type in Ho.
    destruct (Map_get visualizations type) as [v|]; [|done].
    injection Ho as <-. cbn. rewrite bool_decide_eq_true.
    split; [by intros ->|by intros [= ->]].
  - assert (Hlen : length (filter (fun o => props_isSelected o = true)
                             (options visualizations display result))
                   = length (filter (fun type => type = display)
                               (shown visualizations display result))).
    { rewrite shown_eq, options_eq.
      induction (concat (layout visualizations)) as [|type l IH]; [done|].
      cbn [omap list_omap]. unfold render_type at 1.
      destruct (Map_get visualizations type) as [v|] eqn:Hget.
      - rewrite (filter_cons_True (fun type => is_Some _))
          by (rewrite Hget; by eexists).
        destruct (decide (type = display)) as [->|Hne].
        + rewrite !filter_cons_True by (cbn; by rewrite ?bool_decide_eq_true).
          cbn [length]. by rewrite IH.
        + rewrite !filter_cons_False
            by (cbn; by rewrite ?bool_decide_eq_true).
          done.
      - rewrite (filter_cons_False (fun type => is_Some _))
          by (rewrite Hget; by intros [? ?]).
        done. }
    rewrite Hlen. apply NoDup_filter_eq_length.
    by apply NoDup_shown.
Qed.

End Render.
End ChartTypeSidebarProperties.
(** ** Properties of the filter popover and of the filter sidebar *)

Module FilterPopoverProperties.
Import FilterPopover.

Section Components.
Context `{FilterLib}.

Lemma handleCommitFilter_calls (c : popover)
    (a : option (FieldFilter + Filter)) (q : StructuredQuery) :
  handleCommitFilter c a q = [] \/
  exists f, isValid f = true /\
            handleCommitFilter c a q = report (has_onClose c) f.
Proof.
  unfold handleCommitFilter.
  destruct a as [[clause|f]|]; [| |by left].
  - destruct (isValid (Filter_new clause q)) eqn:Hv; [|by left].
    right. by eexists.
  - destruct (isValid f) eqn:Hv; [|by left]. right. by eexists.
Qed.

(** One event makes at most one report, of a valid filter, and leaves the
    [onClose] prop as it is. *)
Lemma step_calls (c c' : popover) (e : event) (calls : list call) :
  step c e = Done (c', calls) ->
  has_onClose c' = has_onClose c /\
  (calls = [] \/
   exists f, isValid f = true /\ calls = report (has_onClose c) f).
Proof.
  destruct e as [nextQuery|key|fieldRef q|a q|newFilter| |]; cbn.
  - intros [= <- <-]. split; [done|by left].
  - intros [= <- <-]. split; [done|]. unfold handleCommitOnEnter.
    case_decide; [apply handleCommitFilter_calls|by left].
  - intros [= <- <-]. split; [done|by left].
  - intros [= <- <-]. split; [done|]. apply handleCommitFilter_calls.
  - unfold handleFilterChange. destruct (filter c); [|done].
    intros [= <- <-]. split; [done|by left].
  - unfold handleClearField. destruct (filter c); [|done].
    intros [= <- <-]. split; [done|by left].
  - intros [= <- <-]. split; [done|]. apply handleCommitFilter_calls.
Qed.

(** What one event reports is the filter it asks to commit, when that
    filter is valid, and nothing otherwise; a handler that dies was asked to
    commit nothing. *)
Lemma step_commits (c : popover) (e : event) :
  match step c e with
  | Done (c', calls) =>
      has_onClose c' = has_onClose c /\
      calls = match to_commit c e with
              | Some f => if isValid f then report (has_onClose c) f else []
              | None => []
              end
  | TypeError => to_commit c e = None
  end.
Proof.
  destruct e as [nextQuery|key|fieldRef q|a q|newFilter| |]; cbn.
  - done.
  - split; [done|]. unfold handleCommitOnEnter, handleCommitFilter.
    case_decide; [|done]. by destruct (filter c).
  - done.
  - split; [done|]. unfold handleCommitFilter. by destruct a as [[clause|f]|].
  - unfold handleFilterChange. by destruct (filter c).
  - unfold handleClearField. by destruct (filter c).
  - split; [done|]. unfold handleCommit, handleCommitFilter.
    by destruct (filter c).
Qed.

Lemma Forall_filter_isValid (fs : list Filter) :
  Forall (fun f => isValid f = true) (List.filter isValid fs).
Proof.
  induction fs as [|f fs IH]; cbn; [constructor|].
  destruct (isValid f) eqn:Hf; [by constructor|done].
Qed.

(** X20: Whatever happens to a mounted popover, in whatever order, the calls
    it makes on its parent are, event by event and in order, exactly one
    report for each event that asks to commit a valid filter -- the Enter key
    or the commit button on the filter it holds, or an item picked in the
    dimension list -- and nothing for any other event. A report is one
    [onChangeFilter] of that filter, directly followed by [onClose] when one
    was given: the popover never hands on a filter that is not valid, never
    closes without having handed one on, and never keeps back a valid filter
    that was committed. *)
Theorem popover_reports_valid_filters (c : popover) (es : list event) :
  (run c es).2 = commits c es ≫= report (has_onClose c) /\
  Forall (fun f => isValid f = true) (commits c es).
Proof.
  split; [|apply Forall_filter_isValid].
  revert c. induction es as [|e es IH]; intros c; [done|].
  unfold commits. cbn [run found omap list_omap fst snd].
  pose proof (step_commits c e) as Hstep.
  destruct (step c e) as [[c' calls]|].
  - destruct Hstep as [Hclose ->]. specialize (IH c').
    destruct (run c' es) as [c'' calls']. cbn [snd] in *.
    rewrite IH, Hclose. unfold commits.
    destruct (to_commit c e) as [f|]; [|done].
    cbn [List.filter]. by destruct (isValid f).
  - rewrite Hstep. apply IH.
Qed.

(** X21: The popover cannot die on a null filter or dimension: [render] always
    returns -- the dimension list while no dimension is chosen, and otherwise
    a header, never [null], with its field picker row -- and no callback that
    the current [render] has handed out dies. *)
Theorem popover_null_safe (c : popover) :
  (exists v,
     render c = Done v /\
     match v with
     | DimensionListView => filter c ≫= dimension = None
     | FilterView header =>
         is_Some (filter c ≫= dimension) /\
         exists h, header = Some h /\ is_Some (field_picker h)
     end) /\
  (forall e, wired c e = true -> exists r, step c e = Done r).
Proof.
  split.
  - unfold render, FilterPopoverHeader.
    destruct (filter c) as [f|]; [|by eexists].
    cbn. destruct (dimension f) as [d|]; [|by eexists].
    eexists. split; [reflexivity|]. cbn. split; [by eexists|].
    eexists. split; [reflexivity|]. by eexists.
  - intros e. unfold wired, render, FilterPopoverHeader.
    destruct e; cbn; try by eexists.
    + unfold handleFilterChange. destruct (filter c) as [f|]; [by eexists|done].
    + unfold handleClearField. destruct (filter c) as [f|]; [by eexists|done].
Qed.

(** X22: The filter sidebar only ever lets out valid filters, and closes after
    each: whatever happens to the popover it mounts, what reaches the outside
    is a sequence of add-and-run of a valid filter, each directly followed by
    a close; and its button closes exactly once, after an add-and-run when,
    and only when, the sidebar holds a valid filter, in which case it reads
    Done rather than Cancel. *)
Theorem sidebar_lets_out_valid_filters (q : StructuredQuery)
    (es : list event) (state_filter : option Filter) :
  (exists fs : list Filter,
     Forall (fun f => isValid f = true) fs /\
     sidebar_receives (run (sidebar_popover q) es).2 = fs ≫= committed) /\
  ((exists f,
      state_filter = Some f /\ isValid f = true /\
      sidebar_render state_filter = SidebarView (committed f) "Done") \/
   ((forall f, state_filter = Some f -> isValid f = false) /\
    sidebar_render state_filter = SidebarView [Close] "Cancel")).
Proof.
  split.
  - assert (Hgen : forall c : popover,
               has_onClose c = false ->
               exists fs : list Filter,
                 Forall (fun f => isValid f = true) fs /\
                 sidebar_receives (run c es).2 = fs ≫= committed).
    { induction es as [|e es IH]; intros c Hc; [by exists []|].
      cbn [run]. destruct (step c e) as [[c' calls]|] eqn:Hstep; [|by apply IH].
      apply step_calls in Hstep as [Hclose Hcalls].
      destruct (IH c') as (fs & Hvalid & Hrun); [congruence|].
      destruct (run c' es) as [c'' calls']. cbn [snd] in *.
      unfold sidebar_receives in *. rewrite bind_app, Hrun.
      destruct Hcalls as [->|(f & Hf & ->)].
      - exists fs. by split.
      - exists (f :: fs). split; [by constructor|].
        rewrite Hc. cbn. unfold sidebar_handleCommit. rewrite Hf. done. }
    by apply Hgen.
  - unfold sidebar_render, sidebar_handleCommit.
    destruct state_filter as [f|].
    + destruct (isValid f) eqn:Hf.
      * left. exists f. by rewrite Hf.
      * right. split; [by intros ? [= <-]|done].
    + right. by split.
Qed.

End Components.
End FilterPopoverProperties.

(** ** The properties on the sample data *)

#[local] Existing Instance empty_object_codec.

(** Creating the Segment of the spec's scenario in the sample world, with a
    description, and reading it back; its definition is written and read by
    the JSON codec of the sample data. *)
Lemma C4_witness :
  (is_integer (VInt 1) = true /\
   is_string (VStr "Active Users") = true /\
   is_integer (VInt 7) = true /\
   is_map sample_definition = true /\
   (VStr "Seen this month" = VNil \/
    is_string (VStr "Seen this month") = true) /\
   @parse_string json_object_codec
     (@generate_string json_object_codec sample_definition)
   = sample_definition) /\
  exists created w1 id,
    @create_segment json_object_codec (VInt 1) (VStr "Active Users")
      (VStr "Seen this month") (VInt 7) sample_definition (sample_world true)
      = (Ok created, w1) /\
    get created "id" = VInt id /\
    exists seg,
      @retrieve_segment json_object_codec (VInt id) w1 = (Ok seg, w1) /\
      seg = created /\
      get seg "is_active" = VBool true /\
      get seg "table_id" = VInt 1 /\
      get seg "creator_id" = VInt 7 /\
      get seg "name" = VStr "Active Users" /\
      get seg "description" = VStr "Seen this month" /\
      get seg "definition" = sample_definition /\
      get seg "creator" = user_by_id (sample_world true) (VInt 7) /\
      is_delay (get seg "creator") = false.
Proof.
  assert (Hjson : @parse_string json_object_codec
                    (@generate_string json_object_codec sample_definition)
                  = sample_definition) by (vm_compute; reflexivity).
  split.
  - split; [reflexivity|]. split; [reflexivity|]. split; [reflexivity|].
    split; [reflexivity|]. split; [by right|exact Hjson].
  - apply (@C4_create_then_retrieve json_object_codec);
      [reflexivity|reflexivity|reflexivity|reflexivity|by right|exact Hjson].
Defined.

(** Two valid calls of [create-segment] whose record does not read back as
    it was passed. A description that is [false] reads back as [nil]. A
    definition that holds a keyword reads back, through the JSON text of
    the column, with the name of the keyword as a string. *)
Lemma C4_counterexample :
  (is_integer (VInt 1) && is_string (VStr "Active Users")
     && is_integer (VInt 7) && is_map sample_definition = true /\
   exists created w1 seg,
     @create_segment json_object_codec (VInt 1) (VStr "Active Users")
       (VBool false) (VInt 7) sample_definition (sample_world true)
       = (Ok created, w1) /\
     get created "id" = VInt 3 /\
     @retrieve_segment json_object_codec (VInt 3) w1 = (Ok seg, w1) /\
     get seg "description" = VNil /\
     get seg "description" <> VBool false) /\
  (is_integer (VInt 1) && is_string (VStr "Active Users")
     && is_integer (VInt 7) && is_map (VMap {["aggregation" := VKw "count"]})
     = true /\
   exists created w1 seg,
     @create_segment json_object_codec (VInt 1) (VStr "Active Users")
       VNil (VInt 7) (VMap {["aggregation" := VKw "count"]})
       (sample_world true)
       = (Ok created, w1) /\
     get created "id" = VInt 3 /\
     @retrieve_segment json_object_codec (VInt 3) w1 = (Ok seg, w1) /\
     get seg "definition" = VMap {["aggregation" := VStr "count"]} /\
     get seg "definition" <> VMap {["aggregation" := VKw "count"]}).
Proof.
  split; (split; [reflexivity|]).
  - eexists _, _, _. split; [by apply create_segment_valid|].
    split; [reflexivity|]. split; [apply retrieve_segment_run|].
    assert (Hread : forall v, v = VNil -> v = VNil /\ v <> VBool false)
      by (by intros v ->).
    apply Hread. vm_compute. reflexivity.
  - eexists _, _, _. split; [by apply create_segment_valid|].
    split; [reflexivity|]. split; [apply retrieve_segment_run|].
    assert (Hread : forall v,
              v = VMap {["aggregation" := VStr "count"]} ->
              v = VMap {["aggregation" := VStr "count"]} /\
              v <> VMap {["aggregation" := VKw "count"]}).
    { intros v ->. split; [done|]. intros E.
      apply (f_equal (fun m => get m "aggregation")) in E.
      vm_compute in E. discriminate E. }
    apply Hread. vm_compute. reflexivity.
Qed.

(** A Segment whose name is the empty string is created, stored under the
    next id, 3, and announced. *)
Lemma C2_counterexample :
  exists seg w1,
    create_segment (VInt 1) (VStr "") VNil (VInt 7) (VMap ∅)
      (sample_world true)
      = (Ok seg, w1) /\
    get seg "name" = VStr "" /\
    is_Some (rows (segment_table w1) !! 3) /\
    rows (segment_table (sample_world true)) !! 3 = None /\
    length (events w1) = 1%nat.
Proof.
  eexists _, _. split; [by apply create_segment_valid|].
  split; [reflexivity|]. split; [by eexists|]. split; reflexivity.
Qed.

(** A name that is [nil] is refused; "Active Users" is accepted. *)
Lemma C2_witness :
  create_segment (VInt 1) VNil VNil (VInt 7) (VMap ∅) (sample_world true)
    = (Throw AssertionError, sample_world true) /\
  exists seg w1 published,
    create_segment (VInt 1) (VStr "Active Users") VNil (VInt 7) (VMap ∅)
      (sample_world true)
      = (Ok seg, w1) /\
    get seg "name" = VStr "Active Users" /\
    is_Some (rows (segment_table w1)
               !! next_id (segment_table (sample_world true))) /\
    events w1 =
      events (sample_world true) ++ [("segment-create"%string, published)].
Proof.
  split.
  - apply (proj1 (C2_create_validation (VInt 1) VNil VNil (VInt 7) (VMap ∅)
                    (sample_world true))).
    reflexivity.
  - apply (proj2 (C2_create_validation (VInt 1) (VStr "Active Users") VNil
                    (VInt 7) (VMap ∅) (sample_world true))).
    reflexivity.
Defined.

(** An update of Segment 1 with the empty string as revision message is
    performed and announced. *)
Lemma C6_counterexample :
  exists seg w1,
    update_segment (sample_update 1 (VStr "")) (VInt 7) (sample_world true)
      = (Ok seg, w1) /\
    get seg "name" = VStr "Active Users v2" /\
    get (stored_segment (sample_world true) 1) "name" = VStr "Active Users" /\
    length (events w1) = 1%nat.
Proof.
  eexists _, _. split; [by apply (update_segment_valid _ _ 1)|].
  split; [reflexivity|]. split; reflexivity.
Qed.

(** A revision message that is [nil] is refused; a text is accepted. *)
Lemma C6_witness :
  update_segment (sample_update 1 VNil) (VInt 7) (sample_world true)
    = (Throw AssertionError, sample_world true) /\
  exists seg w1 published,
    update_segment (sample_update 1 (VStr "narrowed criteria")) (VInt 7)
      (sample_world true)
      = (Ok seg, w1) /\
    events w1 =
      events (sample_world true) ++ [("segment-update"%string, published)].
Proof.
  split.
  - apply (proj1 (C6_update_validation (sample_update 1 VNil) (VInt 7)
                    (sample_world true))).
    reflexivity.
  - apply (proj2 (proj2 (C6_update_validation
                           (sample_update 1 (VStr "narrowed criteria"))
                           (VInt 7) (sample_world true)))).
    reflexivity.
Defined.

(** The caller of the sample world is no superuser, and yet
    [delete-segment] on Segment 1 does not throw: it marks the row inactive
    and publishes the event. *)
Lemma C1_counterexample :
  can_write (sample_world true) = (Ok false, sample_world true) /\
  ~ (exists e,
       delete_segment (VInt 1) (VInt 7) (sample_world true)
       = (Throw e, sample_world true)) /\
  exists seg w1,
    delete_segment (VInt 1) (VInt 7) (sample_world true) = (Ok seg, w1) /\
    get (stored_segment (sample_world true) 1) "is_active" = VBool true /\
    get (stored_segment w1 1) "is_active" = VBool false /\
    length (events w1) = 1%nat.
Proof.
  split; [reflexivity|]. split.
  - intros [e He]. rewrite delete_segment_valid in He. discriminate He.
  - eexists _, _. split; [apply delete_segment_valid|].
    split; [reflexivity|]. split; reflexivity.
Qed.

(** The caller of the sample world and the acting user 7 are no superusers:
    [can-write?] is false, and yet the Segment of the spec's scenario is
    created, Segment 1 is updated and it is deleted, none of the calls
    throwing. *)
Lemma C1_witness :
  can_write (sample_world true) = (Ok false, sample_world true) /\
  (exists seg w' r' published,
     create_segment (VInt 1) (VStr "Active Users") VNil (VInt 7) (VMap ∅)
       (sample_world true) = (Ok seg, w') /\
     rows (segment_table w') !! 3 = Some r' /\
     r' !! "name" = Some (VStr "Active Users") /\
     events w' = [("segment-create"%string, published)]) /\
  (exists seg w' published,
     update_segment (sample_update 1 (VStr "narrowed criteria")) (VInt 7)
       (sample_world true) = (Ok seg, w') /\
     events w' = [("segment-update"%string, published)] /\
     exists r',
       rows (segment_table w') !! 1 = Some r' /\
       r' !! "name" = Some (VStr "Active Users v2")) /\
  (exists seg w' published,
     delete_segment (VInt 1) (VInt 7) (sample_world true) = (Ok seg, w') /\
     events w' = [("segment-delete"%string, published)] /\
     exists r',
       rows (segment_table w') !! 1 = Some r' /\
       r' !! "is_active" = Some (VBool false)) /\
  (forall e w',
     delete_segment (VInt 1) (VInt 7) (sample_world true) = (Throw e, w') ->
     e = AssertionError /\ is_integer (VInt 1) = false).
Proof.
  destruct (C1_store_ignores_caller (sample_world true))
    as (Hcan & Hcreate & Hupdate & Hdelete).
  split; [exact Hcan|]. split; [|split; [|split]].
  - exact (proj1 (proj2 (Hcreate (VInt 1) (VStr "Active Users") VNil (VInt 7)
                           (VMap ∅))) eq_refl).
  - destruct (proj1 (proj2 (Hupdate
                              (sample_update 1 (VStr "narrowed criteria"))
                              (VInt 7))) eq_refl)
      as (seg & w' & published & Hrun & Hev & Hrow).
    exists seg, w', published. split; [exact Hrun|]. split; [exact Hev|].
    exact (Hrow 1 (sample_segment "Active Users" true) eq_refl eq_refl).
  - destruct (proj1 (proj2 (Hdelete (VInt 1) (VInt 7))) eq_refl)
      as (seg & w' & published & Hrun & Hev & Hrow).
    exists seg, w', published. split; [exact Hrun|]. split; [exact Hev|].
    exact (Hrow 1 (sample_segment "Active Users" true) eq_refl eq_refl).
  - exact (proj1 (proj2 (proj2 (Hdelete (VInt 1) (VInt 7))))).
Defined.

(** Deleting Segment 1 physically, in production and outside it. *)
Lemma C3_witness :
  ((forall obj,
      pre_cascade_delete Segment obj (sample_world true)
      = (Throw (Exception "deleting a Segment is not supported."),
         sample_world true)) /\
   cascade_delete Segment [("id"%string, VInt 1)] (sample_world true)
   = (Throw (Exception "deleting a Segment is not supported."),
      sample_world true)) /\
  ((forall obj,
      get obj "id" = VInt 1 ->
      pre_cascade_delete Segment obj (sample_world false)
      = (Ok tt, without_revisions (sample_world false) 1)) /\
   exists w',
     cascade_delete Segment [("id"%string, VInt 1)] (sample_world false)
     = (Ok tt, w') /\
     w' = without_segment (without_revisions (sample_world false) 1) 1 /\
     rows (segment_table w') !! 1 = None /\
     (forall (j : Z) (rev : row),
        rows (revision_table w') !! j = Some rev <->
        rows (revision_table (sample_world false)) !! j = Some rev /\
        is_revision_of 1 rev = false)).
Proof.
  split.
  - apply (proj1 (C3_physical_delete 1 (sample_segment "Active Users" true)
                    (sample_world true) eq_refl)).
    reflexivity.
  - apply (proj2 (C3_physical_delete 1 (sample_segment "Active Users" true)
                    (sample_world false) eq_refl)).
    reflexivity.
Defined.

(** Updating Segment 1 of the sample world. *)
Lemma C7_witness :
  get (sample_update 1 (VStr "narrowed criteria")) "id" = VInt 1 /\
  rows (segment_table (sample_world true)) !! 1
    = Some (sample_segment "Active Users" true) /\
  let w' := (update_segment (sample_update 1 (VStr "narrowed criteria"))
               (VInt 7) (sample_world true)).2 in
  exists r',
    rows (segment_table w') !! 1 = Some r' /\
    (forall f : string,
       f ∉ ["name"; "description"; "definition"; "updated_at"]%string ->
       r' !! f = sample_segment "Active Users" true !! f) /\
    exists before after,
      retrieve_segment (VInt 1) (sample_world true)
        = (Ok before, sample_world true) /\
      retrieve_segment (VInt 1) w' = (Ok after, w') /\
      forall f : string,
        f ∈ ["id"; "table_id"; "creator_id"; "is_active"; "created_at"]%string ->
        get after f = get before f.
Proof.
  split; [reflexivity|]. split; [reflexivity|].
  apply (C7_update_frame (sample_update 1 (VStr "narrowed criteria")) (VInt 7) 1
           (sample_segment "Active Users" true) (sample_world true));
    reflexivity.
Defined.

(** Deleting and updating Segment 2 of the sample world, which is already
    soft-deleted. *)
Lemma C9_witness :
  rows (segment_table (sample_world true)) !! 2
    = Some (sample_segment "Churned Users" false) /\
  sample_segment "Churned Users" false !! "is_active" = Some (VBool false) /\
  (exists seg w',
     delete_segment (VInt 2) (VInt 7) (sample_world true) = (Ok seg, w') /\
     get seg "id" = VInt 2 /\
     get seg "is_active" = VBool false /\
     rows (segment_table w') !! 2 =
       Some (<["updated_at" := VInt (clock (sample_world true))]>
               (<["is_active" := VBool false]>
                  (sample_segment "Churned Users" false))) /\
     events w' =
       events (sample_world true) ++
       [("segment-delete"%string, assoc seg "actor_id" (VInt 7))]) /\
  (exists seg w' r',
     update_segment (sample_update 2 (VStr "revived")) (VInt 7)
       (sample_world true) = (Ok seg, w') /\
     get seg "id" = VInt 2 /\
     get seg "name" = VStr "Active Users v2" /\
     get seg "is_active" = VBool false /\
     rows (segment_table w') !! 2 = Some r' /\
     r' !! "name" = Some (VStr "Active Users v2") /\
     r' !! "description" = Some VNil /\
     r' !! "definition" = Some (json_in (VMap ∅)) /\
     r' !! "is_active" = Some (VBool false) /\
     events w' =
       events (sample_world true) ++
       [("segment-update"%string,
         assoc (assoc seg "actor_id" (VInt 7))
               "revision_message" (VStr "revived"))]).
Proof.
  split; [reflexivity|]. split; [reflexivity|]. split.
  - apply (proj1 (C9_soft_delete_not_terminal 2
                    (sample_segment "Churned Users" false) (sample_world true)
                    eq_refl eq_refl) (VInt 7)).
  - apply (proj2 (C9_soft_delete_not_terminal 2
                    (sample_segment "Churned Users" false) (sample_world true)
                    eq_refl eq_refl)
             (sample_update 2 (VStr "revived")) (VInt 7));
      reflexivity.
Defined.

(** The state [:foo]. *)
Lemma C10_witness :
  "foo"%string <> "active"%string /\
  "foo"%string <> "all"%string /\
  retrieve_segments (VInt 1) (VKw "foo") (sample_world true)
    = retrieve_segments (VInt 1) (VKw "deleted") (sample_world true) /\
  (forall n : Z,
     VInt 1 = VInt n -> returns_listing (sample_world true) n "foo" (Some false)).
Proof.
  split; [done|]. split; [done|].
  apply (C10_unrecognised_state (VInt 1) "foo" (sample_world true)); done.
Defined.

(** ** The further properties on the sample data *)

(** An id that is [nil] is refused; Segment 1 is stored and active. *)
Lemma exists_segment_spec_witness :
  exists_segment VNil (sample_world true)
    = (Throw AssertionError, sample_world true) /\
  exists b : bool,
    exists_segment (VInt 1) (sample_world true) = (Ok b, sample_world true) /\
    (b = true <->
     exists r : row,
       rows (segment_table (sample_world true)) !! 1 = Some r /\
       r !! "is_active" = Some (VBool true)).
Proof.
  split.
  - apply (proj1 (exists_segment_spec VNil (sample_world true))). reflexivity.
  - apply (proj2 (exists_segment_spec (VInt 1) (sample_world true)) 1 eq_refl).
Defined.

(** A string is no id, nothing is stored under 9, and Segment 2, though
    soft-deleted, is found. *)
Lemma retrieve_segment_spec_witness :
  retrieve_segment (VStr "1") (sample_world true)
    = (Throw AssertionError, sample_world true) /\
  retrieve_segment (VInt 9) (sample_world true)
    = (Ok VNil, sample_world true) /\
  exists seg,
    retrieve_segment (VInt 2) (sample_world true)
      = (Ok seg, sample_world true) /\
    get seg "id" = VInt 2 /\
    get seg "is_active"
      = default VNil (sample_segment "Churned Users" false !! "is_active") /\
    get seg "creator"
      = user_by_id (sample_world true)
          (default VNil (sample_segment "Churned Users" false !! "creator_id")).
Proof.
  split; [|split].
  - apply (proj1 (proj2 (retrieve_segment_spec (VStr "1")
                           (sample_world true)))).
    reflexivity.
  - apply (proj1 (proj2 (proj2
             (retrieve_segment_spec (VInt 9) (sample_world true))))
             9 eq_refl).
    reflexivity.
  - apply (proj2 (proj2 (proj2
             (retrieve_segment_spec (VInt 2) (sample_world true))))
             2 (sample_segment "Churned Users" false) eq_refl).
    reflexivity.
Defined.

(** Deleting Segment 1 of the sample world, then reading. *)
Lemma delete_then_read_witness :
  rows (segment_table (sample_world true)) !! 1
    = Some (sample_segment "Active Users" true) /\
  let w' := (delete_segment (VInt 1) (VInt 7) (sample_world true)).2 in
  (exists seg,
     retrieve_segment (VInt 1) w' = (Ok seg, w') /\
     get seg "id" = VInt 1 /\
     get seg "is_active" = VBool false) /\
  exists_segment (VInt 1) w' = (Ok false, w').
Proof.
  split; [reflexivity|].
  apply (delete_then_read 1 (sample_segment "Active Users" true) (VInt 7)
           (sample_world true)).
  reflexivity.
Defined.

(** Deleting and updating the id 9, under which nothing is stored. *)
Lemma mutation_of_missing_id_witness :
  rows (segment_table (sample_world true)) !! 9 = None /\
  delete_segment (VInt 9) (VInt 7) (sample_world true) =
    (Ok VNil,
     set_events
       (events (sample_world true) ++
        [("segment-delete"%string, VMap {["actor_id" := VInt 7]})])
       (sample_world true)) /\
  update_segment (sample_update 9 (VStr "too late")) (VInt 7)
    (sample_world true) =
    (Ok VNil,
     set_events
       (events (sample_world true) ++
        [("segment-update"%string,
          VMap (<["revision_message" := VStr "too late"]>
                  {["actor_id" := VInt 7]}))])
       (sample_world true)).
Proof.
  split; [reflexivity|]. split.
  - apply (proj1 (mutation_of_missing_id 9 (sample_world true) eq_refl)).
  - apply (proj2 (mutation_of_missing_id 9 (sample_world true) eq_refl)
             (sample_update 9 (VStr "too late")) (VInt 7));
      reflexivity.
Defined.

(** The row of Segment 1 after its deletion. *)
Lemma delete_segment_frame_witness :
  rows (segment_table (sample_world true)) !! 1
    = Some (sample_segment "Active Users" true) /\
  exists r',
    rows (segment_table
            (delete_segment (VInt 1) (VInt 7) (sample_world true)).2) !! 1
      = Some r' /\
    r' !! "is_active" = Some (VBool false) /\
    forall f : string,
      f <> "is_active"%string -> f <> "updated_at"%string ->
      r' !! f = sample_segment "Active Users" true !! f.
Proof.
  split; [reflexivity|].
  apply (delete_segment_frame 1 (sample_segment "Active Users" true) (VInt 7)
           (sample_world true)).
  reflexivity.
Defined.

(** The listings of table 1 after the deletion of Segment 1. *)
Lemma listing_after_delete_witness :
  let w' := (delete_segment (VInt 1) (VInt 7) (sample_world true)).2 in
  (exists l,
     retrieve_segments_default (VInt 1) w' = (Ok l, w') /\
     forall seg, seg ∈ l -> get seg "id" <> VInt 1) /\
  (exists l seg,
     retrieve_segments (VInt 1) (VKw "deleted") w' = (Ok l, w') /\
     seg ∈ l /\ get seg "id" = VInt 1 /\ get seg "is_active" = VBool false) /\
  (exists l seg,
     retrieve_segments (VInt 1) (VKw "all") w' = (Ok l, w') /\
     seg ∈ l /\ get seg "id" = VInt 1 /\ get seg "is_active" = VBool false).
Proof.
  apply (listing_after_delete 1 1 (sample_segment "Active Users" true) (VInt 7)
           (sample_world true));
    reflexivity.
Defined.


(** Two identical updates of Segment 1. *)
Lemma update_segment_twice_witness :
  exists seg1 w1 seg2 w2 r1 r2,
    update_segment (sample_update 1 (VStr "narrowed criteria")) (VInt 7)
      (sample_world true) = (Ok seg1, w1) /\
    update_segment (sample_update 1 (VStr "narrowed criteria")) (VInt 7) w1
      = (Ok seg2, w2) /\
    rows (segment_table w1) !! 1 = Some r1 /\
    rows (segment_table w2) !! 1 = Some r2 /\
    (forall f : string, f <> "updated_at"%string -> r2 !! f = r1 !! f) /\
    (forall f : string,
       f <> "updated_at"%string -> f <> "creator"%string ->
       f <> "description"%string -> f <> "definition"%string ->
       get seg2 f = get seg1 f) /\
    get seg2 "description" = get seg1 "description" /\
    get seg2 "definition" = get seg1 "definition" /\
    get seg2 "creator" = get seg1 "creator" /\
    length (events w2) = S (S (length (events (sample_world true)))).
Proof.
  apply (update_segment_twice (sample_update 1 (VStr "narrowed criteria"))
           (VInt 7) 1 (sample_segment "Active Users" true) (sample_world true));
    reflexivity.
Defined.

(** Updating Segment 1, then reading it back. *)
Lemma update_then_retrieve_witness :
  exists seg w',
    update_segment (sample_update 1 (VStr "narrowed criteria")) (VInt 7)
      (sample_world true) = (Ok seg, w') /\
    retrieve_segment (VInt 1) w' = (Ok seg, w') /\
    get seg "name" = VStr "Active Users v2" /\
    get seg "description" = VNil /\
    get seg "definition" = VMap ∅.
Proof.
  apply (update_then_retrieve (sample_update 1 (VStr "narrowed criteria"))
           (VInt 7) 1 (sample_segment "Active Users" true) (sample_world true));
    try reflexivity.
  by left.
Defined.

(** Creating two Segments in the sample world: they get the ids 3 and 4. *)
Lemma create_segment_twice_witness :
  exists seg1 w1 seg2 w2 (k : Z),
    create_segment (VInt 1) (VStr "Big Spenders") VNil (VInt 7) (VMap ∅)
      (sample_world true) = (Ok seg1, w1) /\
    create_segment (VInt 2) (VStr "Big Spenders") (VStr "again") (VInt 1)
      (VMap ∅) w1 = (Ok seg2, w2) /\
    get seg1 "id" = VInt k /\
    get seg2 "id" = VInt (k + 1) /\
    retrieve_segment (VInt k) w2 = (Ok seg1, w2).
Proof.
  apply (create_segment_twice
           (VInt 1) (VStr "Big Spenders") VNil (VInt 7) (VMap ∅)
           (VInt 2) (VStr "Big Spenders") (VStr "again") (VInt 1) (VMap ∅)
           (sample_world true));
    reflexivity.
Defined.

(** A Segment created in the sample world is there for the readers. *)
Lemma create_then_listed_witness :
  exists seg w' (k : Z) l,
    create_segment (VInt 1) (VStr "Big Spenders") VNil (VInt 7) (VMap ∅)
      (sample_world true) = (Ok seg, w') /\
    get seg "id" = VInt k /\
    exists_segment (VInt k) w' = (Ok true, w') /\
    retrieve_segments_default (VInt 1) w' = (Ok l, w') /\
    seg ∈ l.
Proof.
  apply (create_then_listed
           (VInt 1) (VStr "Big Spenders") VNil (VInt 7) (VMap ∅)
           (sample_world true)).
  reflexivity.
Defined.

(** The two snapshots of a Segment created in the sample world. *)
Lemma create_segment_snapshots_witness :
  exists seg w' payload (s s' : row),
    create_segment (VInt 1) (VStr "Big Spenders") VNil (VInt 7) (VMap ∅)
      (sample_world true) = (Ok seg, w') /\
    events w' = events (sample_world true)
                ++ [("segment-create"%string, payload)] /\
    is_delay (get payload "creator") = true /\
    serialize_instance payload = Ok (VMap s) /\
    serialize_instance seg = Ok (VMap s') /\
    s !! "creator" = None /\
    s' !! "creator" = Some (user_by_id (sample_world true) (VInt 7)) /\
    forall f : string, f <> "creator"%string -> s' !! f = s !! f.
Proof.
  apply (create_segment_snapshots
           (VInt 1) (VStr "Big Spenders") VNil (VInt 7) (VMap ∅)
           (sample_world true)).
  reflexivity.
Defined.

(** The options of the sample registry. *)
Lemma options_shown_witness :
  NoDup ChartTypeSidebar.sample_registry.*1 /\
  NoDup (ChartTypeSidebar.shown ChartTypeSidebar.sample_registry "table" None)
  /\
  forall type : string,
    type ∈ ChartTypeSidebar.shown ChartTypeSidebar.sample_registry "table" None
    <->
    exists v,
      (type, v) ∈ ChartTypeSidebar.sample_registry /\
      (type ∈ ChartTypeSidebar.FIXED_TYPES \/
       ChartTypeSidebar.hidden v = false).
Proof.
  assert (Hnd : NoDup ChartTypeSidebar.sample_registry.*1) by compute_done.
  split; [exact Hnd|].
  exact (ChartTypeSidebarProperties.options_shown
           ChartTypeSidebar.sample_registry "table" None Hnd).
Defined.

(** The selected option of the sample registry. *)
Lemma selected_option_witness :
  NoDup ChartTypeSidebar.sample_registry.*1 /\
  (forall o,
     o ∈ ChartTypeSidebar.options ChartTypeSidebar.sample_registry "table" None
     ->
     ChartTypeSidebar.props_isSelected o = true <->
     ChartTypeSidebar.option_type o = Some "table"%string) /\
  (length
     (filter (fun o => ChartTypeSidebar.props_isSelected o = true)
        (ChartTypeSidebar.options ChartTypeSidebar.sample_registry "table"
           None))
   <= 1)%nat.
Proof.
  assert (Hnd : NoDup ChartTypeSidebar.sample_registry.*1) by compute_done.
  split; [exact Hnd|].
  exact (ChartTypeSidebarProperties.selected_option
           ChartTypeSidebar.sample_registry "table" None Hnd).
Defined.
